(** * The Word-content flow engine of the InDesign plugin

    A shallow embedding of [layoutWordContent]
    (uxp-plugins/indesign/commands/layout.js) and of the part of the InDesign
    document object model it drives, followed by the properties of the flow
    engine.

    The engine is imperative JavaScript mutating the host document and
    raising exceptions; it is embedded in a small state-and-exception monad
    over the document.  The local variables of [layoutWordContent]
    ([currentPageIndex], [pagesCreated], ...) are threaded explicitly. *)

From Stdlib Require Import String Ascii List Arith ZArith Lia Bool.
From stdpp Require Import base gmap strings list pretty.

(** ** Input: content blocks *)

(** [run.formatting]: the flags are only tested for truthiness. *)
Record Formatting := mkFormatting {
  bold : bool;
  italic : bool;
  underline : bool
}.

(** A run.  An absent [text] is the empty string (the code reads it through
    [run.text || ""] and through truthiness tests only); [formatting] may be
    absent. *)
Record Run := mkRun {
  text : string;
  formatting : option Formatting
}.

(** A paragraph: [runs] (absent is the empty array: both are skipped by the
    code) and an optional [style] name. *)
Record Para := mkPara {
  runs : list Run;
  style : option string
}.

(** An entry of a table cell: a paragraph object, or a bare string, which
    has no [runs] and which the code skips (line 207). *)
Inductive CellEntry :=
| CellParagraph (p : Para)
| CellValue (s : string).

(** [block.type] is "paragraph", "table", or anything else (ignored by the
    loop).  A table's rows are lists of cells, a cell a list of entries. *)
Inductive Block :=
| ParagraphBlock (p : Para)
| TableBlock (rows : list (list (list CellEntry)))
| OtherBlock.


(** [command.options]; every field may be absent. *)
Record Options := mkOptions {
  content : option (list Block);
  styleMapping : option (gmap string string);
  autoFlow : option bool;
  startPage : option nat
}.

(** The value returned by [layoutWordContent]. *)
Record Summary := mkSummary {
  sum_pagesCreated : nat;
  sum_paragraphsPlaced : nat;
  framesCreated : nat;
  sum_startPage : nat;
  endPage : nat
}.

(** The paragraph break and the tab of the source ("\r" and "\t"). *)
Definition CR : string := String "013"%char EmptyString.
Definition TAB : string := String "009"%char EmptyString.

(** JavaScript truthiness of a string and of an optional string. *)
Definition truthy (s : string) : bool :=
  match s with EmptyString => false | _ => true end.

Definition truthy_opt (o : option string) : option string :=
  match o with
  | Some s => if truthy s then Some s else None
  | None => None
  end.

(** [options.styleMapping] is a plain object, kept as the finite map of its
    own properties; a name that is not an own property is looked up in
    [Object.prototype].  These are the names found there; their values are
    functions, and the prototype itself for [__proto__]: objects, all
    truthy. *)
Definition object_prototype_members : list string :=
  ["constructor"; "__defineGetter__"; "__defineSetter__"; "hasOwnProperty";
   "__lookupGetter__"; "__lookupSetter__"; "isPrototypeOf";
   "propertyIsEnumerable"; "toString"; "valueOf"; "__proto__";
   "toLocaleString"]%string.

(** The value the engine hands to the host as a style name: a string, or the
    member of [Object.prototype] found under [key]. *)
Inductive NameValue :=
| StringValue (s : string)
| InheritedValue (key : string).

(** ** The host document *)

Section Engine.

(** JavaScript numbers are kept abstract: the engine only adds and subtracts
    coordinates, and no law of arithmetic is assumed of them. *)
Context {num : Type} (nadd nsub : num -> num -> num).

(** [page.bounds] and [frame.geometricBounds]: the array [y1, x1, y2, x2],
    read by the source at indices 0, 1, 2, 3. *)
Record Bounds := mkBounds { y1 : num; x1 : num; y2 : num; x2 : num }.

Record MarginPreferences := mkMargins {
  margin_top : num; margin_left : num; margin_bottom : num; margin_right : num
}.

(** The rectangle returned by [getPageContentBounds]. *)
Record ContentBounds := mkContentBounds {
  cb_x : num; cb_y : num; cb_width : num; cb_height : num
}.

(** A character of a story with the attributes the engine sets. *)
Record Character := mkCharacter {
  contents : ascii;
  fontStyle : string;
  char_underline : bool;
  appliedParagraphStyle : option string
}.

(** A text frame: its rectangle, the story it holds and the link to its
    successor.  Frames are referred to by their index in the document's
    frame store, in order of creation; the engine only holds handles that
    [textFrames.add] returned, so they always denote a frame. *)
Record TextFrame := mkTextFrame {
  geometricBounds : Bounds;
  parentStory : list Character;
  nextTextFrame : option nat
}.

Record Page := mkPage {
  bounds : Bounds;
  marginPreferences : MarginPreferences;
  textFrames : list nat
}.

(** [app.activeDocument].  A paragraph style is referred to by name, as the
    object specifiers of the host do. *)
Record Document := mkDocument {
  pages : list Page;
  frames : list TextFrame;
  paragraphStyles : list string
}.

(** What the host decides on its own: the geometry of a page it adds, when a
    frame overflows, which calls raise, and the style name it reads from an
    object given where a name is expected ([None]: it raises; the object is
    a member of [Object.prototype], given by its key). *)
Record Host := mkHost {
  pages_add_result : Document -> option (Bounds * MarginPreferences);
  textFrames_add_throws : Document -> nat -> Bounds -> bool;
  contents_throws : Document -> nat -> string -> bool;
  frame_overflows : Document -> nat -> bool;
  paragraphStyles_add_throws : Document -> string -> bool;
  appliedParagraphStyle_throws : Document -> nat -> string -> bool;
  fontStyle_throws : Character -> string -> bool;
  underline_throws : Character -> bool;
  object_style_name : string -> option string
}.

Variable h : Host.

(** ** State and exceptions *)

Inductive Outcome (A : Type) : Type :=
| Returns (a : A) (d : Document)
| Throws (d : Document).
Arguments Returns {A} a d.
Arguments Throws {A} d.

Definition M (A : Type) : Type := Document -> Outcome A.

Definition ret {A} (a : A) : M A := fun d => Returns a d.

Definition bind {A B} (m : M A) (k : A -> M B) : M B :=
  fun d => match m d with
           | Returns a d' => k a d'
           | Throws d' => Throws d'
           end.

(** [try { body } catch (e) { handler }]: the handler runs in the document as
    the failed body left it. *)
Definition try_catch {A} (body handler : M A) : M A :=
  fun d => match body d with
           | Returns a d' => Returns a d'
           | Throws d' => handler d'
           end.

Notation "x <- c ;; k" := (bind c (fun x => k))
  (at level 100, c at next level, right associativity).
Notation "c ;;; k" := (bind c (fun _ => k))
  (at level 100, right associativity).

Definition final_document {A} (o : Outcome A) : Document :=
  match o with Returns _ d => d | Throws d => d end.

Definition returned {A} (default : A) (o : Outcome A) : A :=
  match o with Returns a _ => a | Throws _ => default end.

(** ** Host operations *)

Definition with_pages (ps : list Page) (d : Document) : Document :=
  mkDocument ps (frames d) (paragraphStyles d).

Definition with_frames (fs : list TextFrame) (d : Document) : Document :=
  mkDocument (pages d) fs (paragraphStyles d).

Definition with_story (g : list Character -> list Character)
    (fr : TextFrame) : TextFrame :=
  mkTextFrame (geometricBounds fr) (g (parentStory fr)) (nextTextFrame fr).

Definition update_story (f : nat) (g : list Character -> list Character)
    (d : Document) : Document :=
  with_frames (alter (with_story g) f (frames d)) d.

(** [frame.parentStory.characters] *)
Definition story_of (d : Document) (f : nat) : list Character :=
  match frames d !! f with
  | Some fr => parentStory fr
  | None => []
  end.

Definition story_text (d : Document) (f : nat) : string :=
  string_of_list_ascii (map contents (story_of d f)).

(** [doc.pages.add()]: a page is appended at the end. *)
Definition pages_add : M unit := fun d =>
  match pages_add_result h d with
  | Some (b, m) => Returns tt (with_pages (pages d ++ [mkPage b m []]) d)
  | None => Throws d
  end.

(** [page.textFrames.add({geometricBounds})]: a new, empty, unlinked frame on
    the page; its handle is returned. *)
Definition textFrames_add (pageIndex : nat) (gb : Bounds) : M nat := fun d =>
  if textFrames_add_throws h d pageIndex gb then Throws d
  else
    let f := length (frames d) in
    Returns f
      (mkDocument
         (alter (fun p => mkPage (bounds p) (marginPreferences p)
                            (textFrames p ++ [f])) pageIndex (pages d))
         (frames d ++ [mkTextFrame gb [] None])
         (paragraphStyles d)).

(** [frame.parentStory.characters.length] *)
Definition characters_length (f : nat) : M nat := fun d =>
  Returns (length (story_of d f)) d.

(** Characters as the host inserts them: no attribute set by the engine. *)
Definition plain (c : ascii) : Character := mkCharacter c "Regular" false None.

(** [frame.parentStory.insertionPoints[-1].contents = s]: [s] is appended to
    the story. *)
Definition set_contents (f : nat) (s : string) : M unit := fun d =>
  if contents_throws h d f s then Throws d
  else Returns tt
         (update_story f (fun st => st ++ map plain (list_ascii_of_string s)) d).

(** [frame.overflows] *)
Definition overflows (f : nat) : M bool := fun d =>
  Returns (frame_overflows h d f) d.

(** [a.nextTextFrame = b]: the link is a reference to the successor. *)
Definition set_nextTextFrame (a b : nat) : M unit := fun d =>
  Returns tt
    (with_frames
       (alter (fun fr => mkTextFrame (geometricBounds fr) (parentStory fr)
                           (Some b)) a (frames d)) d).

(** The style name the host works with when given [name]: a string is the
    name itself; from an object the host reads a name, the same wherever a
    name is expected, or raises. *)
Definition style_name_of (name : NameValue) : option string :=
  match name with
  | StringValue s => Some s
  | InheritedValue key => object_style_name h key
  end.

(** [doc.paragraphStyles.itemByName(name)] builds a specifier and, for a
    string, never raises; [.isValid] tells whether the style exists. *)
Definition itemByName (name : NameValue) : M string := fun d =>
  match style_name_of name with
  | Some n => Returns n d
  | None => Throws d
  end.

Definition isValid (s : string) : M bool := fun d =>
  Returns (bool_decide (s ∈ paragraphStyles d)) d.

(** [doc.paragraphStyles.add({name})] *)
Definition paragraphStyles_add (name : NameValue) : M string := fun d =>
  match style_name_of name with
  | Some n =>
      if paragraphStyles_add_throws h d n then Throws d
      else Returns n
             (mkDocument (pages d) (frames d) (paragraphStyles d ++ [n]))
  | None => Throws d
  end.

Definition is_CR (c : Character) : bool :=
  bool_decide (contents c = "013"%char).

(** Index at which the last paragraph of a story starts: after the last
    paragraph break that is not the final character. *)
Fixpoint last_paragraph_start (i start : nat) (s : list Character) : nat :=
  match s with
  | [] => start
  | c :: rest =>
      match rest with
      | [] => start
      | _ => last_paragraph_start (S i) (if is_CR c then S i else start) rest
      end
  end.

Definition set_paragraph_style (sty : string) (c : Character) : Character :=
  mkCharacter (contents c) (fontStyle c) (char_underline c) (Some sty).

(** [story.paragraphs[-1].appliedParagraphStyle = style] *)
Definition set_last_appliedParagraphStyle (f : nat) (sty : string) : M unit :=
  fun d =>
    if appliedParagraphStyle_throws h d f sty then Throws d
    else Returns tt
           (update_story f
              (fun st =>
                 let start := last_paragraph_start 0 0 st in
                 imap (fun i c => if start <=? i then set_paragraph_style sty c
                                  else c) st) d).

Definition update_char (f c : nat) (g : Character -> Character)
    (d : Document) : Document :=
  update_story f (alter g c) d.

(** [story.characters[c].fontStyle = v] *)
Definition set_fontStyle (f c : nat) (v : string) : M unit := fun d =>
  match story_of d f !! c with
  | Some ch =>
      if fontStyle_throws h ch v then Throws d
      else Returns tt
             (update_char f c
                (fun ch => mkCharacter (contents ch) v (char_underline ch)
                             (appliedParagraphStyle ch)) d)
  | None => Throws d
  end.

(** [story.characters[c].underline = true] *)
Definition set_underline (f c : nat) : M unit := fun d =>
  match story_of d f !! c with
  | Some ch =>
      if underline_throws h ch then Throws d
      else Returns tt
             (update_char f c
                (fun ch => mkCharacter (contents ch) (fontStyle ch) true
                             (appliedParagraphStyle ch)) d)
  | None => Throws d
  end.

(** ** The engine: [layoutWordContent] *)

(** The local variables of [layoutWordContent] once the first frame exists. *)
Record Locals := mkLocals {
  currentPageIndex : nat;
  pagesCreated : nat;
  paragraphsPlaced : nat;
  currentTextFrame : nat;
  linkedFrames : list nat
}.

(** [getPageContentBounds]; reading [page.bounds] of a page that does not
    exist raises. *)
Definition getPageContentBounds (pageIndex : nat) : M ContentBounds := fun d =>
  match pages d !! pageIndex with
  | Some page =>
      let pageBounds := bounds page in
      let margins := marginPreferences page in
      Returns
        (mkContentBounds
           (margin_left margins)
           (margin_top margins)
           (nsub (nsub (nsub (x2 pageBounds) (x1 pageBounds))
                    (margin_left margins)) (margin_right margins))
           (nsub (nsub (nsub (y2 pageBounds) (y1 pageBounds))
                    (margin_top margins)) (margin_bottom margins))) d
  | None => Throws d
  end.

(** The [while] loop of [ensurePage]; [fuel] bounds the iterations and the
    updated [pagesCreated] is returned.  With the fuel [ensurePage] gives it
    the loop always ends by its own test ([ensurePage_loop_spec] below). *)
Fixpoint ensurePage_loop (fuel pageIndex created : nat) : M nat := fun d =>
  if decide (length (pages d) <= pageIndex) then
    match fuel with
    | S fuel' =>
        (pages_add ;;; ensurePage_loop fuel' pageIndex (S created)) d
    | 0 => Returns created d
    end
  else Returns created d.

(** Every [doc.pages.add()] appends one page, so the loop runs once per
    missing page. *)
Definition ensurePage (pageIndex created : nat) : M nat := fun d =>
  ensurePage_loop (S pageIndex - length (pages d)) pageIndex created d.

(** [getOrCreateTextFrame]; returns the frame and the updated
    [pagesCreated]. *)
Definition getOrCreateTextFrame (pageIndex created : nat) : M (nat * nat) :=
  created' <- ensurePage pageIndex created ;;
  bounds <- getPageContentBounds pageIndex ;;
  textFrame <- textFrames_add pageIndex
                 (mkBounds (cb_y bounds)
                           (cb_x bounds)
                           (nadd (cb_y bounds) (cb_height bounds))
                           (nadd (cb_x bounds) (cb_width bounds))) ;;
  ret (textFrame, created').

(** [styleMapping[wordStyleName] || wordStyleName]: an own property of the
    map when there is one (a falsy one gives way to the source name), else
    the truthy member of [Object.prototype] of that name when there is one,
    else the source name. *)
Definition mapped_name (styleMapping : gmap string string)
    (wordStyleName : string) : NameValue :=
  match styleMapping !! wordStyleName with
  | Some n => StringValue (if truthy n then n else wordStyleName)
  | None =>
      if bool_decide (wordStyleName ∈ object_prototype_members)
      then InheritedValue wordStyleName
      else StringValue wordStyleName
  end.

(** [getOrCreateStyle].  The first [try] block either returns the existing
    style or falls through. *)
Definition getOrCreateStyle (styleMapping : gmap string string)
    (wordStyleName : string) : M string :=
  let indesignStyleName := mapped_name styleMapping wordStyleName in
  found <- try_catch
             (existingStyle <- itemByName indesignStyleName ;;
              valid <- isValid existingStyle ;;
              ret (if valid then Some existingStyle else None))
             (ret None) ;;
  match found with
  | Some existingStyle => ret existingStyle
  | None =>
      try_catch
        (newStyle <- paragraphStyles_add indesignStyleName ;; ret newStyle)
        (itemByName (StringValue "[Basic Paragraph]"))
  end.

(** The three assignments made to one character (lines 168-178). *)
Definition formatCharacter (f c : nat) (fmt : Formatting) : M unit :=
  (if bold fmt then set_fontStyle f c "Bold" else ret tt) ;;;
  (if italic fmt
   then set_fontStyle f c (if bold fmt then "Bold Italic" else "Italic")
   else ret tt) ;;;
  (if underline fmt then set_underline f c else ret tt).

(** The loop over the characters of one run: [c] runs from [charIndex] while
    [c < charIndex + runLength && c < story.characters.length]; [n] is
    [charIndex + runLength - c]. *)
Fixpoint formatCharacters (f : nat) (fmt : Formatting) (c n : nat) : M unit :=
  match n with
  | 0 => ret tt
  | S n' =>
      len <- characters_length f ;;
      if c <? len
      then formatCharacter f c fmt ;;; formatCharacters f fmt (S c) n'
      else ret tt
  end.

(** The loop over the runs (lines 160-186), from the current [charIndex]. *)
Fixpoint formatRuns (f : nat) (rs : list Run) (charIndex : nat) : M unit :=
  match rs with
  | [] => ret tt
  | run :: rest =>
      match formatting run with
      | Some fmt =>
          if truthy (text run) then
            let runLength := String.length (text run) in
            try_catch (formatCharacters f fmt charIndex runLength) (ret tt) ;;;
            formatRuns f rest (charIndex + runLength)
          else formatRuns f rest charIndex
      | None => formatRuns f rest charIndex
      end
  end.

(** The paragraph text built from the runs (lines 122-127). *)
Definition runsText (rs : list Run) (acc : string) : string :=
  fold_left (fun acc run => acc +:+ text run) rs acc.

(** Lines 130-137: the text to insert, or [None] for [continue]. *)
Definition paragraphTextOf (block : Para) : option string :=
  let paragraphText := runsText (runs block) "" in
  if 0 <? String.length paragraphText then Some (paragraphText +:+ CR)
  else match truthy_opt (style block) with
       | Some _ => Some CR
       | None => None
       end.

(** Lines 139-188: insertion, paragraph style, run formatting, counter. *)
Definition placeParagraph (styleMapping : gmap string string) (block : Para)
    (paragraphText : string) (l : Locals) : M Locals :=
  let f := currentTextFrame l in
  startIndex <- characters_length f ;;
  set_contents f paragraphText ;;;
  match truthy_opt (style block) with
  | Some s =>
      sty <- getOrCreateStyle styleMapping s ;;
      try_catch (set_last_appliedParagraphStyle f sty) (ret tt)
  | None => ret tt
  end ;;;
  formatRuns f (runs block) startIndex ;;;
  ret (mkLocals (currentPageIndex l) (pagesCreated l)
         (S (paragraphsPlaced l)) f (linkedFrames l)).

(** Lines 190-197: the overflow check after a paragraph. *)
Definition checkOverflow (autoFlow : bool) (l : Locals) : M Locals :=
  ov <- (if autoFlow then overflows (currentTextFrame l) else ret false) ;;
  if ov then
    let page := S (currentPageIndex l) in
    r <- getOrCreateTextFrame page (pagesCreated l) ;;
    let newFrame := fst r in
    set_nextTextFrame (currentTextFrame l) newFrame ;;;
    ret (mkLocals page (snd r) (paragraphsPlaced l) newFrame
           (linkedFrames l ++ [newFrame]))
  else ret l.

(** Lines 205-213: the text of one cell. *)
Definition cellContentOf (cell : list CellEntry) : string :=
  fold_left
    (fun acc para =>
       match para with
       | CellParagraph p => runsText (runs p) acc
       | CellValue _ => acc
       end) cell "".

(** Lines 201-216: the text of a table. *)
Definition tableTextOf (rows : list (list (list CellEntry))) : string :=
  fold_left
    (fun acc row => acc +:+ (String.concat TAB (map cellContentOf row) +:+ CR))
    rows "".

(** One iteration of the loop over [content]. *)
Definition processBlock (autoFlow : bool) (styleMapping : gmap string string)
    (block : Block) (l : Locals) : M Locals :=
  match block with
  | ParagraphBlock p =>
      match paragraphTextOf p with
      | None => ret l
      | Some paragraphText =>
          l' <- placeParagraph styleMapping p paragraphText l ;;
          checkOverflow autoFlow l'
      end
  | TableBlock rows =>
      let tableText := tableTextOf rows in
      if truthy tableText then
        set_contents (currentTextFrame l) tableText ;;;
        ret (mkLocals (currentPageIndex l) (pagesCreated l)
               (S (paragraphsPlaced l)) (currentTextFrame l) (linkedFrames l))
      else ret l
  | OtherBlock => ret l
  end.

Fixpoint processBlocks (autoFlow : bool) (styleMapping : gmap string string)
    (blocks : list Block) (l : Locals) : M Locals :=
  match blocks with
  | [] => ret l
  | block :: rest =>
      l' <- processBlock autoFlow styleMapping block l ;;
      processBlocks autoFlow styleMapping rest l'
  end.

(** Lines 112-114: the first frame, on [startPage]. *)
Definition initialLocals (startPage : nat) : M Locals :=
  r <- getOrCreateTextFrame startPage 0 ;;
  ret (mkLocals startPage (snd r) 0 (fst r) [fst r]).

Definition summaryOf (startPage : nat) (l : Locals) : Summary :=
  mkSummary (pagesCreated l) (paragraphsPlaced l) (length (linkedFrames l))
    startPage (currentPageIndex l).

Definition layoutWordContent (options : Options) : M Summary :=
  let content := default [] (content options) in
  let styleMapping := default ∅ (styleMapping options) in
  let autoFlow := default true (autoFlow options) in
  let startPage := default 0 (startPage options) in
  l0 <- initialLocals startPage ;;
  l <- processBlocks autoFlow styleMapping content l0 ;;
  ret (summaryOf startPage l).

(** ** The text frame commands (textframes.js) *)

(** What the host decides for the two assignments only textframes.js makes:
    [textFrame.contents = s] and [textFrame.insertionPoints[0].contents = s]. *)
Record FrameHost := mkFrameHost {
  frame_contents_throws : Document -> nat -> string -> bool;
  start_contents_throws : Document -> nat -> string -> bool
}.

Variable fh : FrameHost.

(** [throw new Error(...)]: the document is as it was. *)
Definition throw {A} : M A := fun d => Throws d.

(** [frame.id.toString()]: the identifier of a frame, unique in the
    document, is its index in the frame store; its string is the decimal
    numeral. *)
Definition frameIdOf (f : nat) : string := pretty f.

(** [textFrame.contents = s]: the text of the frame is replaced. *)
Definition set_frame_contents (f : nat) (s : string) : M unit := fun d =>
  if frame_contents_throws fh d f s then Throws d
  else Returns tt
         (update_story f (fun _ => map plain (list_ascii_of_string s)) d).

(** [textFrame.insertionPoints[0].contents = s]: [s] is put before the
    text.  A frame holds its whole story, so its first and last insertion
    points are those of the story. *)
Definition set_start_contents (f : nat) (s : string) : M unit := fun d =>
  if start_contents_throws fh d f s then Throws d
  else Returns tt
         (update_story f (fun st => map plain (list_ascii_of_string s) ++ st) d).

(** [command.options] of [createTextFrame]. *)
Record CreateTextFrameOptions := mkCreateTextFrameOptions {
  ctf_pageIndex : nat;
  ctf_x : num;
  ctf_y : num;
  ctf_width : num;
  ctf_height : num;
  ctf_content : option string
}.

Record CreateTextFrameResult := mkCreateTextFrameResult {
  ctf_frameId : string;
  ctf_bounds : ContentBounds;
  ctf_resultPageIndex : nat
}.

Definition createTextFrame (options : CreateTextFrameOptions)
    : M CreateTextFrameResult := fun d =>
  if decide (length (pages d) <= ctf_pageIndex options) then Throws d
  else
    (textFrame <- textFrames_add (ctf_pageIndex options)
                    (mkBounds (ctf_y options)
                              (ctf_x options)
                              (nadd (ctf_y options) (ctf_height options))
                              (nadd (ctf_x options) (ctf_width options))) ;;
     match truthy_opt (ctf_content options) with
     | Some c => set_frame_contents textFrame c
     | None => ret tt
     end ;;;
     ret (mkCreateTextFrameResult (frameIdOf textFrame)
            (mkContentBounds (ctf_x options) (ctf_y options)
               (ctf_width options) (ctf_height options))
            (ctf_pageIndex options))) d.

(** An entry of the list [getTextFrames] returns. *)
Record FrameInfo := mkFrameInfo {
  fi_id : string;
  fi_pageIndex : nat;
  fi_bounds : Bounds;
  fi_width : num;
  fi_height : num;
  fi_contentLength : nat;
  fi_overflows : bool;
  fi_hasNextFrame : bool;
  fi_hasPreviousFrame : bool
}.

(** [frame.previousTextFrame !== null]: some frame has [f] as successor. *)
Definition hasPreviousFrame (d : Document) (f : nat) : bool :=
  existsb (fun fr => bool_decide (nextTextFrame fr = Some f)) (frames d).

(** The entry pushed for one frame of a page (lines 79-97). *)
Definition frameInfo (d : Document) (pageIndex f : nat) : option FrameInfo :=
  fr ← frames d !! f;
  Some (mkFrameInfo (frameIdOf f) pageIndex (geometricBounds fr)
          (nsub (x2 (geometricBounds fr)) (x1 (geometricBounds fr)))
          (nsub (y2 (geometricBounds fr)) (y1 (geometricBounds fr)))
          (length (parentStory fr))
          (frame_overflows h d f)
          (bool_decide (nextTextFrame fr <> None))
          (hasPreviousFrame d f)).

(** [processPage]: the entries of the frames of a page, in order. *)
Definition processPage (d : Document) (page : Page) (pageIndex : nat)
    : list FrameInfo :=
  omap (frameInfo d pageIndex) (textFrames page).

Definition getTextFrames (pageIndex : option nat) : M (list FrameInfo) :=
  fun d =>
    match pageIndex with
    | Some p =>
        match pages d !! p with
        | Some page => Returns (processPage d page p) d
        | None => Throws d
        end
    | None =>
        Returns (concat (imap (fun p page => processPage d page p) (pages d))) d
    end.

(** The search of [linkTextFrames] (lines 126-137): every frame of every
    page is compared with both identifiers, and a later match replaces an
    earlier one. *)
Definition scanFrames (sourceFrameId targetFrameId : string)
    (ps : list Page) : option nat * option nat :=
  fold_left
    (fun acc page =>
       fold_left
         (fun acc frame =>
            (if String.eqb (frameIdOf frame) sourceFrameId
             then Some frame else acc.1,
             if String.eqb (frameIdOf frame) targetFrameId
             then Some frame else acc.2))
         (textFrames page) acc)
    ps (None, None).

Record LinkResult := mkLinkResult {
  lr_linked : bool;
  lr_sourceFrameId : string;
  lr_targetFrameId : string
}.

Definition linkTextFrames (sourceFrameId targetFrameId : string)
    : M LinkResult := fun d =>
  match scanFrames sourceFrameId targetFrameId (pages d) with
  | (None, _) => Throws d
  | (Some _, None) => Throws d
  | (Some sourceFrame, Some targetFrame) =>
      (set_nextTextFrame sourceFrame targetFrame ;;;
       ret (mkLinkResult true sourceFrameId targetFrameId)) d
  end.

(** The search of [insertText] (lines 165-175): the first frame with the
    identifier, in the order of the pages. *)
Fixpoint findInPage (frameId : string) (fs : list nat) : option nat :=
  match fs with
  | [] => None
  | frame :: rest =>
      if String.eqb (frameIdOf frame) frameId then Some frame
      else findInPage frameId rest
  end.

Fixpoint findFrame (frameId : string) (ps : list Page) : option nat :=
  match ps with
  | [] => None
  | page :: rest =>
      match findInPage frameId (textFrames page) with
      | Some frame => Some frame
      | None => findFrame frameId rest
      end
  end.

Record InsertTextOptions := mkInsertTextOptions {
  it_frameId : string;
  it_text : string;
  it_position : option string;
  it_styleName : option string
}.

Record InsertTextResult := mkInsertTextResult {
  it_inserted : bool;
  it_resultFrameId : string;
  it_textLength : nat;
  it_resultPosition : string
}.

(** Lines 201-215: the style is applied when it exists and the story has a
    paragraph; every failure is swallowed. *)
Definition applyStyleToLastParagraph (textFrame : nat) (styleName : string)
    : M unit :=
  try_catch
    (sty <- itemByName (StringValue styleName) ;;
     valid <- isValid sty ;;
     if valid then
       len <- characters_length textFrame ;;
       if 0 <? len then set_last_appliedParagraphStyle textFrame sty
       else ret tt
     else ret tt)
    (ret tt).

Definition insertText (options : InsertTextOptions) : M InsertTextResult :=
  fun d =>
    match findFrame (it_frameId options) (pages d) with
    | None => Throws d
    | Some textFrame =>
        let position :=
          match truthy_opt (it_position options) with
          | Some p => p
          | None => "END"%string
          end in
        ((if String.eqb position "START"
          then set_start_contents textFrame (it_text options)
          else if String.eqb position "END"
          then set_contents textFrame (it_text options)
          else if String.eqb position "REPLACE"
          then set_frame_contents textFrame (it_text options)
          else throw) ;;;
         match truthy_opt (it_styleName options) with
         | Some styleName => applyStyleToLastParagraph textFrame styleName
         | None => ret tt
         end ;;;
         ret (mkInsertTextResult true (it_frameId options)
                (String.length (it_text options)) position)) d
    end.

(** The position [insertText] works with. *)
Definition positionOf (options : InsertTextOptions) : string :=
  match truthy_opt (it_position options) with
  | Some p => p
  | None => "END"%string
  end.

(** Every frame listed by a page is a frame of the document. *)
Definition pages_wf (d : Document) : Prop :=
  forall page f, page ∈ pages d -> f ∈ textFrames page -> f < length (frames d).

(** ** Notions used by the properties *)

(** The rectangle of a page, as [getPageContentBounds] computes it. *)
Definition contentBoundsOf (page : Page) : ContentBounds :=
  let b := bounds page in
  let m := marginPreferences page in
  mkContentBounds
    (margin_left m)
    (margin_top m)
    (nsub (nsub (nsub (x2 b) (x1 b)) (margin_left m)) (margin_right m))
    (nsub (nsub (nsub (y2 b) (y1 b)) (margin_top m)) (margin_bottom m)).

(** The frame bounds [y, x, y + height, x + width] of a rectangle. *)
Definition frameBoundsOf (r : ContentBounds) : Bounds :=
  mkBounds (cb_y r) (cb_x r)
    (nadd (cb_y r) (cb_height r)) (nadd (cb_x r) (cb_width r)).

(** The relation between the page index and the chain of frames. *)
Definition chain_invariant (startPage : nat) (l : Locals) : Prop :=
  currentPageIndex l - startPage = length (linkedFrames l) - 1
  /\ startPage <= currentPageIndex l
  /\ 1 <= length (linkedFrames l).

(** Computations that return whatever the host does. *)
Definition total {A} (m : M A) : Prop :=
  forall d, exists a d', m d = Returns a d'.

(** [keeps R m]: the document [m] ends in, returning or raising, is related
    by [R] to the one it started in. *)
Definition keeps (R : Document -> Document -> Prop) {A} (m : M A) : Prop :=
  forall d, R d (final_document (m d)).

(** Only frame [f] is changed, and frames are neither added nor removed. *)
Definition touches (f : nat) (d d' : Document) : Prop :=
  pages d' = pages d
  /\ length (frames d') = length (frames d)
  /\ (forall f', f' <> f -> frames d' !! f' = frames d !! f').

(** Moreover the text of frame [f], its bounds and its link are kept: only
    attributes of its characters change. *)
Definition restyles (f : nat) (d d' : Document) : Prop :=
  touches f d d'
  /\ map contents (story_of d' f) = map contents (story_of d f)
  /\ nextTextFrame <$> frames d' !! f = nextTextFrame <$> frames d !! f.




(** The style [getOrCreateStyle] resolves a name to in the document [d]:
    the target name when a style of that name exists or the host creates
    one, and "[Basic Paragraph]" when the host refuses the creation or reads
    no name from the object it is given. *)
Definition resolved_style (styleMapping : gmap string string)
    (wordStyleName : string) (d : Document) : string :=
  match style_name_of (mapped_name styleMapping wordStyleName) with
  | Some target =>
      if bool_decide (target ∈ paragraphStyles d) then target
      else if paragraphStyles_add_throws h d target
           then "[Basic Paragraph]"%string
           else target
  | None => "[Basic Paragraph]"%string
  end.

(** The document after [s] is appended to the story of frame [f]. *)
Definition appended (f : nat) (s : string) (d : Document) : Document :=
  update_story f (fun st => st ++ map plain (list_ascii_of_string s)) d.

(** Blocks that place text: they are the ones counted. *)
Definition placesText (block : Block) : bool :=
  match block with
  | ParagraphBlock p =>
      match paragraphTextOf p with Some _ => true | None => false end
  | TableBlock rows => truthy (tableTextOf rows)
  | OtherBlock => false
  end.

(** The options of the end-to-end scenario. *)
Definition hello_paragraph : Para :=
  mkPara [mkRun "Hello" None] (Some "Normal"%string).

Definition hello_options : Options :=
  mkOptions (Some [ParagraphBlock hello_paragraph])
    (Some {[ "Normal"%string := "Body Text"%string ]})
    (Some true) (Some 0).

(** ** Sample hosts and documents *)

(** A host that accepts every request, gives every page it adds the geometry
    [b], [m], reports a frame as overflowing when its story has more than
    [capacity] characters, and raises when given an object for a name. *)
Definition accepting_host (b : Bounds) (m : MarginPreferences)
    (capacity : nat) : Host :=
  mkHost (fun _ => Some (b, m))
    (fun _ _ _ => false) (fun _ _ _ => false)
    (fun d f => capacity <? length (story_of d f))
    (fun _ _ => false) (fun _ _ _ => false)
    (fun _ _ => false) (fun _ => false)
    (fun _ => None).

(** A document of one page without frames and without styles. *)
Definition single_page_document (b : Bounds) (m : MarginPreferences) : Document :=
  mkDocument [mkPage b m []] [] [].

(** A document of one page with one frame holding the plain text [s]. *)
Definition single_frame_document (b : Bounds) (m : MarginPreferences)
    (s : string) : Document :=
  mkDocument [mkPage b m [0]]
    [mkTextFrame b (map plain (list_ascii_of_string s)) None] [].

(** ** Notions used by the further properties *)

(** The text a block places in the story (lines 122-137 and 201-216); a
    skipped block places none. *)
Definition blockText (block : Block) : string :=
  match block with
  | ParagraphBlock p => default ""%string (paragraphTextOf p)
  | TableBlock rows => tableTextOf rows
  | OtherBlock => ""%string
  end.

(** Paragraph blocks that are placed: the overflow check follows them. *)
Definition isPlacedParagraph (block : Block) : bool :=
  match block with
  | ParagraphBlock p =>
      match paragraphTextOf p with Some _ => true | None => false end
  | _ => false
  end.

(** What lines 170-178 leave in a character when the host accepts every
    assignment. *)
Definition formatted (fmt : Formatting) (ch : Character) : Character :=
  mkCharacter (contents ch)
    (if italic fmt then (if bold fmt then "Bold Italic" else "Italic")
     else if bold fmt then "Bold" else fontStyle ch)%string
    (if underline fmt then true else char_underline ch)
    (appliedParagraphStyle ch).

(** The pages of [d0] are still in [d], with their geometry, and with the
    frames they had first in their list of frames. *)
Definition pages_extend (d0 d : Document) : Prop :=
  forall i p,
    pages d0 !! i = Some p ->
    exists p', pages d !! i = Some p'
               /\ bounds p' = bounds p
               /\ marginPreferences p' = marginPreferences p
               /\ textFrames p `prefix_of` textFrames p'.

(** The state of a flow started on [d0] at [startPage]: the chain is the
    frames created since, in order of creation, the current frame is the
    last of them, frame [i] of the chain lies on page [startPage + i] and is
    linked to frame [i + 1]; what [d0] held is kept. *)
Definition flow_invariant (d0 : Document) (startPage : nat) (l : Locals)
    (d : Document) : Prop :=
  linkedFrames l = seq (length (frames d0)) (length (linkedFrames l))
  /\ length (frames d) = length (frames d0) + length (linkedFrames l)
  /\ currentTextFrame l + 1 = length (frames d)
  /\ currentPageIndex l + 1 = startPage + length (linkedFrames l)
  /\ length (pages d)
     = length (pages d0) + pagesCreated l
  /\ (forall f, f < length (frames d0) -> frames d !! f = frames d0 !! f)
  /\ (forall i, i < length (linkedFrames l) ->
        nextTextFrame <$> frames d !! (length (frames d0) + i)
        = Some (if decide (S i < length (linkedFrames l))
                then Some (length (frames d0) + S i) else None))
  /\ (forall i, i < length (linkedFrames l) ->
        exists page, pages d !! (startPage + i) = Some page
                     /\ length (frames d0) + i ∈ textFrames page)
  /\ pages_extend d0 d
  /\ paragraphStyles d0 `prefix_of` paragraphStyles d
  /\ 1 <= length (linkedFrames l).

(** The text held by the [k] frames created from frame [n0] on, in order. *)
Definition chainText (d : Document) (n0 k : nat) : string :=
  String.concat "" (map (story_text d) (seq n0 k)).

(** The styles of the document are only added to. *)
Definition styles_extend (d d' : Document) : Prop :=
  paragraphStyles d `prefix_of` paragraphStyles d'.

(** The characters of frame [f] have the paragraph styles they had, and no
    frame is added or removed. *)
Definition same_paragraph_styles (f : nat) (d d' : Document) : Prop :=
  map appliedParagraphStyle (story_of d' f)
  = map appliedParagraphStyle (story_of d f)
  /\ length (frames d') = length (frames d).

(** * Properties *)

(** ** Strings *)

Lemma append_cons (a : ascii) (s t : string) :
  String a s +:+ t = String a (s +:+ t).
Proof. reflexivity. Qed.

Lemma append_nil_r (s : string) : s +:+ "" = s.
Proof. induction s as [|a s IH]; [done | by cbn; rewrite ?append_cons; cbn; f_equal]. Qed.

Lemma append_assoc (s t u : string) : (s +:+ t) +:+ u = s +:+ (t +:+ u).
Proof. induction s as [|a s IH]; [done | by cbn; rewrite ?append_cons; cbn; f_equal]. Qed.

Lemma string_of_list_ascii_app (s t : list ascii) :
  string_of_list_ascii (s ++ t)
  = string_of_list_ascii s +:+ string_of_list_ascii t.
Proof. induction s as [|a s IH]; [done | by cbn; rewrite ?append_cons; cbn; f_equal]. Qed.

Lemma truthy_false (s : string) : truthy s = false <-> s = "".
Proof. by destruct s. Qed.

Lemma append_eq_nil (s t : string) : s +:+ t = "" -> s = "" /\ t = "".
Proof. destruct s; [done | rewrite append_cons; discriminate]. Qed.

(** ** Documents *)

Lemma story_of_update_story_eq f g d :
  f < length (frames d) ->
  story_of (update_story f g d) f = g (story_of d f).
Proof.
  intros Hf. unfold story_of, update_story; simpl.
  rewrite list_lookup_alter_eq.
  destruct (lookup_lt_is_Some_2 _ _ Hf) as [fr ->]. done.
Qed.

Lemma story_of_update_story_ne f f' g d :
  f <> f' -> story_of (update_story f g d) f' = story_of d f'.
Proof.
  intros Hne. unfold story_of, update_story; simpl.
  by rewrite list_lookup_alter_ne.
Qed.

Lemma length_frames_update_story f g d :
  length (frames (update_story f g d)) = length (frames d).
Proof. unfold update_story; simpl. apply length_alter. Qed.

Lemma story_of_ge d f : length (frames d) <= f -> story_of d f = [].
Proof. intros Hf. unfold story_of. by rewrite lookup_ge_None_2. Qed.

(** ** Page and frame creation *)

(** The loop of [ensurePage] only appends pages, counts each of them, and
    with the fuel [ensurePage] gives it stops because the page exists. *)
Lemma ensurePage_loop_spec fuel pageIndex created d created' d' :
  S pageIndex - length (pages d) <= fuel ->
  ensurePage_loop fuel pageIndex created d = Returns created' d' ->
  pageIndex < length (pages d')
  /\ frames d' = frames d
  /\ paragraphStyles d' = paragraphStyles d
  /\ exists new, pages d' = pages d ++ new
                 /\ created' = created + length new
                 /\ Forall (fun p => textFrames p = []) new.
Proof.
  revert created d. induction fuel as [|fuel IH]; intros created d Hfuel; simpl.
  - case_decide; [lia |]. intros [= <- <-].
    repeat split; [lia |]. exists []. rewrite app_nil_r. by auto with lia.
  - case_decide as Hlen.
    + unfold bind, pages_add.
      destruct (pages_add_result h d) as [[b m]|]; [| discriminate].
      intros Hrec. apply IH in Hrec; simpl in *.
      * destruct Hrec as (Hlt & Hfr & Hst & new & Hpages & Hcr & Hnew).
        repeat split; try done. exists (mkPage b m [] :: new).
        rewrite Hpages, <- app_assoc. simpl.
        repeat split; [lia | by constructor].
      * rewrite length_app; simpl. lia.
    + intros [= <- <-].
      repeat split; [lia |]. exists []. rewrite app_nil_r. by auto with lia.
Qed.

Lemma ensurePage_spec pageIndex created d created' d' :
  ensurePage pageIndex created d = Returns created' d' ->
  pageIndex < length (pages d')
  /\ frames d' = frames d
  /\ paragraphStyles d' = paragraphStyles d
  /\ exists new, pages d' = pages d ++ new
                 /\ created' = created + length new
                 /\ Forall (fun p => textFrames p = []) new.
Proof. unfold ensurePage. by apply ensurePage_loop_spec. Qed.

(** What a successful [getOrCreateTextFrame] does to the document. *)
Lemma getOrCreateTextFrame_spec pageIndex created d f created' d' :
  getOrCreateTextFrame pageIndex created d = Returns (f, created') d' ->
  exists new page,
    f = length (frames d)
    /\ created' = created + length new
    /\ (pages d ++ new) !! pageIndex = Some page
    /\ pages d' = alter (fun p => mkPage (bounds p) (marginPreferences p)
                                    (textFrames p ++ [f])) pageIndex
                    (pages d ++ new)
    /\ frames d' = frames d ++ [mkTextFrame (frameBoundsOf (contentBoundsOf page))
                                  [] None]
    /\ paragraphStyles d' = paragraphStyles d.
Proof.
  unfold getOrCreateTextFrame, bind.
  destruct (ensurePage pageIndex created d) as [c1 d1|] eqn:He; [| discriminate].
  apply ensurePage_spec in He as (Hlt & Hfr & Hst & new & Hpages & Hcr & _).
  unfold getPageContentBounds.
  destruct (pages d1 !! pageIndex) as [page|] eqn:Hpage; [| discriminate].
  unfold textFrames_add; simpl.
  destruct (textFrames_add_throws _ _ _ _); [discriminate |].
  unfold ret. intros [= <- <- <-]; simpl.
  exists new, page. rewrite <- Hpages, Hfr, Hst. by repeat split.
Qed.

(** ** Sequencing *)

Lemma bind_Returns {A B} (m : M A) (k : A -> M B) d b d' :
  bind m k d = Returns b d' ->
  exists a d1, m d = Returns a d1 /\ k a d1 = Returns b d'.
Proof.
  unfold bind. destruct (m d) as [a d1|d1]; [| discriminate].
  intros Hk. by exists a, d1.
Qed.

Lemma bind_eval {A B} (m : M A) (k : A -> M B) d a d1 :
  m d = Returns a d1 -> bind m k d = k a d1.
Proof. unfold bind. by intros ->. Qed.

Lemma bind_throw {A B} (m : M A) (k : A -> M B) d d1 :
  m d = Throws d1 -> bind m k d = Throws d1.
Proof. unfold bind. by intros ->. Qed.

Ltac inv_bind H :=
  let a := fresh "a" in
  let d := fresh "d" in
  let Hm := fresh "Hm" in
  apply bind_Returns in H as (a & d & Hm & H).

Ltac inv_ret H := unfold ret in H; injection H as <- <-.

(** ** The content rectangle of a page (C8) *)

(** C8: the frame [getOrCreateTextFrame] creates on a page lies on that page,
    and its bounds are [y, x, y + height, x + width] for the rectangle
    x = left margin, y = top margin, width = page width - left - right
    margins, height = page height - top - bottom margins, all read from that
    page; [getPageContentBounds] returns exactly this rectangle. *)
Theorem content_bounds_of_own_page pageIndex created d f created' d' :
  getOrCreateTextFrame pageIndex created d = Returns (f, created') d' ->
  exists page,
    pages d' !! pageIndex = Some page
    /\ f ∈ textFrames page
    /\ let m := marginPreferences page in
       let pageWidth := nsub (x2 (bounds page)) (x1 (bounds page)) in
       let pageHeight := nsub (y2 (bounds page)) (y1 (bounds page)) in
       let x := margin_left m in
       let y := margin_top m in
       let width := nsub (nsub pageWidth (margin_left m)) (margin_right m) in
       let height := nsub (nsub pageHeight (margin_top m)) (margin_bottom m) in
       getPageContentBounds pageIndex d'
       = Returns (mkContentBounds x y width height) d'
       /\ geometricBounds <$> frames d' !! f
          = Some (mkBounds y x (nadd y height) (nadd x width)).
Proof.
  intros Hget.
  apply getOrCreateTextFrame_spec in Hget
    as (new & page & -> & _ & Hpage & Hpages & Hframes & _).
  exists (mkPage (bounds page) (marginPreferences page)
            (textFrames page ++ [length (frames d)])).
  assert (pages d' !! pageIndex
          = Some (mkPage (bounds page) (marginPreferences page)
                    (textFrames page ++ [length (frames d)]))) as Hp.
  { by rewrite Hpages, list_lookup_alter_eq, Hpage. }
  split; [done |]. split.
  { simpl. apply elem_of_app. right. by apply list_elem_of_singleton. }
  simpl. split.
  - unfold getPageContentBounds. by rewrite Hp.
  - rewrite Hframes, lookup_app_r by lia.
    by replace (length (frames d) - length (frames d)) with 0 by lia.
Qed.

(** ** Page index and chain length (C9) *)

Lemma placeParagraph_locals sm p paragraphText l d l1 d1 :
  placeParagraph sm p paragraphText l d = Returns l1 d1 ->
  l1 = mkLocals (currentPageIndex l) (pagesCreated l)
         (S (paragraphsPlaced l)) (currentTextFrame l) (linkedFrames l).
Proof.
  unfold placeParagraph. intros H.
  do 4 inv_bind H. by inv_ret H.
Qed.

Lemma checkOverflow_cases autoFlow l d l' d' :
  checkOverflow autoFlow l d = Returns l' d' ->
  (l' = l /\ d' = d /\ (autoFlow && frame_overflows h d (currentTextFrame l)) = false)
  \/ (autoFlow = true
      /\ frame_overflows h d (currentTextFrame l) = true
      /\ exists newFrame created' d1,
           getOrCreateTextFrame (S (currentPageIndex l)) (pagesCreated l) d
           = Returns (newFrame, created') d1
           /\ set_nextTextFrame (currentTextFrame l) newFrame d1 = Returns tt d'
           /\ l' = mkLocals (S (currentPageIndex l)) created'
                     (paragraphsPlaced l) newFrame
                     (linkedFrames l ++ [newFrame])).
Proof.
  unfold checkOverflow. intros H. inv_bind H.
  assert (a = autoFlow && frame_overflows h d (currentTextFrame l) /\ d0 = d)
    as [-> ->].
  { destruct autoFlow; simpl; unfold overflows, ret in Hm;
      by injection Hm as <- <-. }
  destruct (autoFlow && frame_overflows h d (currentTextFrame l)) eqn:Hov.
  - right. apply andb_true_iff in Hov as [-> Hov]. do 2 (split; [done |]).
    inv_bind H. destruct a as [newFrame created']. inv_bind H.
    destruct a. inv_ret H. by exists newFrame, created', d0.
  - left. by inv_ret H.
Qed.

Lemma checkOverflow_invariant autoFlow startPage l d l' d' :
  chain_invariant startPage l ->
  checkOverflow autoFlow l d = Returns l' d' ->
  chain_invariant startPage l'.
Proof.
  intros (Heq & Hle & Hlen) H.
  apply checkOverflow_cases in H
    as [(-> & _ & _) | (_ & _ & nf & c & d1 & _ & _ & ->)]; [done |].
  unfold chain_invariant; simpl. rewrite length_app; simpl. lia.
Qed.

Lemma processBlock_invariant autoFlow sm block startPage l d l' d' :
  chain_invariant startPage l ->
  processBlock autoFlow sm block l d = Returns l' d' ->
  chain_invariant startPage l'.
Proof.
  intros Hinv. destruct block as [p | rows |]; simpl.
  - destruct (paragraphTextOf p) as [paragraphText|].
    + intros H. inv_bind H. apply placeParagraph_locals in Hm as ->.
      eapply checkOverflow_invariant; [| exact H]. exact Hinv.
    + intros H. by inv_ret H.
  - destruct (truthy (tableTextOf rows)); intros H.
    + inv_bind H. by inv_ret H.
    + by inv_ret H.
  - intros H. by inv_ret H.
Qed.

Lemma processBlocks_invariant autoFlow sm blocks startPage l d l' d' :
  chain_invariant startPage l ->
  processBlocks autoFlow sm blocks l d = Returns l' d' ->
  chain_invariant startPage l'.
Proof.
  revert l d. induction blocks as [|block rest IH]; intros l d Hinv; simpl.
  - intros H. by inv_ret H.
  - intros H. inv_bind H. eapply IH; [| exact H].
    eapply processBlock_invariant; [exact Hinv | exact Hm].
Qed.

Lemma initialLocals_invariant startPage d l d' :
  initialLocals startPage d = Returns l d' -> chain_invariant startPage l.
Proof.
  unfold initialLocals. intros H. inv_bind H. inv_ret H.
  unfold chain_invariant; simpl. lia.
Qed.

(** C9: the first frame establishes, and every iteration of the loop over the
    content keeps, that the current page index minus the start page is the
    number of frames in the chain minus one; so the summary of every
    completed run has endPage = startPage + framesCreated - 1. *)
Theorem chain_length_tracks_page_index :
  (forall startPage d l d',
      initialLocals startPage d = Returns l d' ->
      chain_invariant startPage l)
  /\ (forall autoFlow sm block startPage l d l' d',
         chain_invariant startPage l ->
         processBlock autoFlow sm block l d = Returns l' d' ->
         chain_invariant startPage l')
  /\ (forall options d s d',
         layoutWordContent options d = Returns s d' ->
         endPage s = sum_startPage s + framesCreated s - 1
         /\ 1 <= framesCreated s).
Proof.
  split; [exact initialLocals_invariant |].
  split; [exact processBlock_invariant |].
  intros options d s d'. unfold layoutWordContent. intros H.
  inv_bind H. inv_bind H. inv_ret H.
  apply initialLocals_invariant in Hm.
  eapply processBlocks_invariant in Hm0; [| exact Hm].
  destruct Hm0 as (Heq & Hle & Hlen). simpl. lia.
Qed.

(** ** Style resolution (C6, C7) *)

Lemma getOrCreateStyle_cases sm name d :
  getOrCreateStyle sm name d
  = match style_name_of (mapped_name sm name) with
    | Some target =>
        if bool_decide (target ∈ paragraphStyles d) then Returns target d
        else if paragraphStyles_add_throws h d target
             then Returns "[Basic Paragraph]"%string d
             else Returns target
                    (mkDocument (pages d) (frames d)
                       (paragraphStyles d ++ [target]))
    | None => Returns "[Basic Paragraph]"%string d
    end.
Proof.
  unfold getOrCreateStyle, bind, try_catch, itemByName, paragraphStyles_add,
    isValid, ret.
  destruct (style_name_of (mapped_name sm name)) as [target|]; simpl; [| done].
  destruct (bool_decide (target ∈ paragraphStyles d)); [done |].
  by destruct (paragraphStyles_add_throws h d target).
Qed.

(** The outcome of a resolution: the style of [resolved_style], and at most
    that style added to the document. *)
Lemma getOrCreateStyle_resolved sm name d :
  exists d',
    getOrCreateStyle sm name d = Returns (resolved_style sm name d) d'
    /\ pages d' = pages d
    /\ frames d' = frames d
    /\ (paragraphStyles d' = paragraphStyles d
        \/ ((resolved_style sm name d ∉ paragraphStyles d)
            /\ paragraphStyles d'
               = paragraphStyles d ++ [resolved_style sm name d])).
Proof.
  rewrite getOrCreateStyle_cases. unfold resolved_style.
  destruct (style_name_of (mapped_name sm name)) as [target|];
    [| by eauto 10].
  destruct (bool_decide (target ∈ paragraphStyles d)) eqn:Hin; [by eauto 10 |].
  destruct (paragraphStyles_add_throws h d target); [by eauto 10 |].
  eexists. split; [reflexivity |]. simpl. repeat split. right.
  split; [| done]. by apply bool_decide_eq_false in Hin.
Qed.

Lemma total_ret {A} (a : A) : total (ret a).
Proof. intros d. by exists a, d. Qed.

Lemma total_bind {A B} (m : M A) (k : A -> M B) :
  total m -> (forall a, total (k a)) -> total (bind m k).
Proof.
  intros Hm Hk d. unfold bind. destruct (Hm d) as (a & d1 & ->). apply Hk.
Qed.

Lemma total_try_catch {A} (body handler : M A) :
  total handler -> total (try_catch body handler).
Proof.
  intros Hh d. unfold try_catch. destruct (body d) as [a d1|d1]; [| apply Hh].
  by exists a, d1.
Qed.

Lemma total_getOrCreateStyle sm name : total (getOrCreateStyle sm name).
Proof.
  intros d. destruct (getOrCreateStyle_resolved sm name d) as (d' & -> & _).
  by eauto.
Qed.

(** The run formatter swallows every failure of the host. *)
Lemma total_formatRuns f rs charIndex : total (formatRuns f rs charIndex).
Proof.
  revert charIndex. induction rs as [|run rest IH]; intros charIndex; simpl.
  - apply total_ret.
  - destruct (formatting run) as [fmt|]; [| apply IH].
    destruct (truthy (text run)); [| apply IH].
    apply total_bind; [| intros []; apply IH].
    apply total_try_catch, total_ret.
Qed.

(** The only call of [placeParagraph] that can raise is the insertion of the
    text. *)
Lemma placeParagraph_outcome sm p paragraphText l d :
  (contents_throws h d (currentTextFrame l) paragraphText = true
   /\ placeParagraph sm p paragraphText l d = Throws d)
  \/ (contents_throws h d (currentTextFrame l) paragraphText = false
      /\ exists l1 d1, placeParagraph sm p paragraphText l d = Returns l1 d1).
Proof.
  unfold placeParagraph.
  erewrite bind_eval by (unfold characters_length; reflexivity).
  destruct (contents_throws h d (currentTextFrame l) paragraphText) eqn:Hc.
  - left. split; [done |].
    erewrite bind_throw; [done |]. unfold set_contents. by rewrite Hc.
  - right. split; [done |].
    erewrite bind_eval by (unfold set_contents; rewrite Hc; reflexivity).
    apply total_bind; [| intros []].
    + destruct (truthy_opt (style p)); [| apply total_ret].
      apply total_bind; [apply total_getOrCreateStyle | intros sty].
      apply total_try_catch, total_ret.
    + apply total_bind; [apply total_formatRuns | intros []; apply total_ret].
Qed.

(** C6: resolving a style always returns a style and never raises: an
    existing style of the target name is returned as it is; otherwise a
    style of that name is created, and when the creation fails, or the host
    reads no name from what it is given, the host's "[Basic Paragraph]" is
    returned.  The flow proceeds: placing a paragraph can raise only through
    the insertion of its text.  But an absent key does not always resolve to
    the source name: the map is a plain object, so a source name that is not
    one of its own properties and that [Object.prototype] defines resolves
    to the inherited member.  With the empty map, "constructor" resolves to
    the function [Object] and not to the name "constructor". *)
Theorem style_resolution_reads_inherited_members sm name d p paragraphText l :
  mapped_name ∅ "constructor" = InheritedValue "constructor"
  /\ mapped_name ∅ "constructor" <> StringValue "constructor"
  /\ match sm !! name with
     | Some n =>
         mapped_name sm name = StringValue (if truthy n then n else name)
     | None =>
         mapped_name sm name
         = if bool_decide (name ∈ object_prototype_members)
           then InheritedValue name
           else StringValue name
     end
  /\ (exists sty d',
         getOrCreateStyle sm name d = Returns sty d'
         /\ match style_name_of (mapped_name sm name) with
            | Some target =>
                if bool_decide (target ∈ paragraphStyles d)
                then sty = target /\ d' = d
                else if paragraphStyles_add_throws h d target
                     then sty = "[Basic Paragraph]"%string /\ d' = d
                     else sty = target
                          /\ pages d' = pages d /\ frames d' = frames d
                          /\ paragraphStyles d'
                             = paragraphStyles d ++ [target]
            | None => sty = "[Basic Paragraph]"%string /\ d' = d
            end)
  /\ ((contents_throws h d (currentTextFrame l) paragraphText = true
       /\ placeParagraph sm p paragraphText l d = Throws d)
      \/ (contents_throws h d (currentTextFrame l) paragraphText = false
          /\ exists l1 d1,
               placeParagraph sm p paragraphText l d = Returns l1 d1)).
Proof.
  split; [reflexivity |]. split; [discriminate |]. split; [| split].
  - unfold mapped_name. by destruct (sm !! name).
  - rewrite getOrCreateStyle_cases.
    destruct (style_name_of (mapped_name sm name)) as [target|];
      [| by eauto].
    destruct (bool_decide (target ∈ paragraphStyles d)); [by eauto |].
    destruct (paragraphStyles_add_throws h d target); by eauto 10.
  - apply placeParagraph_outcome.
Qed.

(** C7: a second resolution of the same name returns the same style as the
    first and changes nothing; the two together add at most one style to the
    document. *)
Theorem style_resolution_idempotent sm name d :
  exists sty d1 created,
    getOrCreateStyle sm name d = Returns sty d1
    /\ getOrCreateStyle sm name d1 = Returns sty d1
    /\ paragraphStyles d1 = paragraphStyles d ++ created
    /\ length created <= 1.
Proof.
  rewrite getOrCreateStyle_cases.
  destruct (style_name_of (mapped_name sm name)) as [target|] eqn:Hname.
  2:{ exists "[Basic Paragraph]"%string, d, [].
      rewrite getOrCreateStyle_cases, Hname, app_nil_r. by auto. }
  destruct (bool_decide (target ∈ paragraphStyles d)) eqn:Hin.
  - exists target, d, []. rewrite getOrCreateStyle_cases, Hname.
    rewrite Hin, app_nil_r. by auto.
  - destruct (paragraphStyles_add_throws h d target) eqn:Hadd.
    + exists "[Basic Paragraph]"%string, d, [].
      rewrite getOrCreateStyle_cases, Hname.
      rewrite Hin, Hadd, app_nil_r. by auto.
    + eexists target, _, [target]. split; [reflexivity |].
      rewrite getOrCreateStyle_cases, Hname. simpl.
      rewrite bool_decide_eq_true_2.
      * by auto.
      * apply elem_of_app. right. by apply list_elem_of_singleton.
Qed.

(** ** What a computation leaves unchanged *)

Section Keeps.

Variable R : Document -> Document -> Prop.
Context `{!PreOrder R}.

Lemma keeps_ret {A} (a : A) : keeps R (ret a).
Proof. intros d. simpl. reflexivity. Qed.

Lemma keeps_bind {A B} (m : M A) (k : A -> M B) :
  keeps R m -> (forall a, keeps R (k a)) -> keeps R (bind m k).
Proof.
  intros Hm Hk d. unfold bind. specialize (Hm d).
  destruct (m d) as [a d1|d1]; simpl in *; [| done].
  etransitivity; [exact Hm | apply Hk].
Qed.

Lemma keeps_try_catch {A} (body handler : M A) :
  keeps R body -> keeps R handler -> keeps R (try_catch body handler).
Proof.
  intros Hb Hh d. unfold try_catch. specialize (Hb d).
  destruct (body d) as [a d1|d1]; simpl in *; [done |].
  etransitivity; [exact Hb | apply Hh].
Qed.

Lemma keeps_Returns {A} (m : M A) d a d' :
  keeps R m -> m d = Returns a d' -> R d d'.
Proof. intros Hm Hd. specialize (Hm d). by rewrite Hd in Hm. Qed.

End Keeps.

Local Instance touches_preorder f : PreOrder (touches f).
Proof.
  split.
  - by intros d.
  - intros d1 d2 d3 (Hp1 & Hl1 & Ho1) (Hp2 & Hl2 & Ho2).
    repeat split; [congruence | congruence |].
    intros f' Hf'. by rewrite Ho2, Ho1.
Qed.

Local Instance restyles_preorder f : PreOrder (restyles f).
Proof.
  split.
  - by intros d.
  - intros d1 d2 d3 (Ht1 & Hc1 & Hn1) (Ht2 & Hc2 & Hn2).
    split; [by etransitivity | split; congruence].
Qed.

Lemma touches_update_story f g d : touches f d (update_story f g d).
Proof.
  repeat split.
  - apply length_frames_update_story.
  - intros f' Hf'. unfold update_story; simpl.
    by rewrite list_lookup_alter_ne.
Qed.

Lemma restyles_update_story f g d :
  (forall st, map contents (g st) = map contents st) ->
  restyles f d (update_story f g d).
Proof.
  intros Hg. split; [apply touches_update_story |]. split.
  - destruct (decide (f < length (frames d))) as [Hf|Hf].
    + by rewrite story_of_update_story_eq.
    + rewrite !story_of_ge; [done | lia |].
      rewrite length_frames_update_story. lia.
  - unfold update_story; simpl. rewrite list_lookup_alter_eq.
    by destruct (frames d !! f).
Qed.

Lemma map_contents_imap (F : nat -> Character -> Character) st :
  (forall i c, contents (F i c) = contents c) ->
  map contents (imap F st) = map contents st.
Proof.
  revert F. induction st as [|c st IH]; intros F HF; simpl; [done |].
  rewrite HF. f_equal. apply IH. intros i c'. apply HF.
Qed.

Lemma map_contents_alter (g : Character -> Character) c st :
  (forall ch, contents (g ch) = contents ch) ->
  map contents (alter g c st) = map contents st.
Proof.
  intros Hg. revert c. induction st as [|ch st IH]; intros [|c]; simpl;
    [done | done | by rewrite Hg | f_equal; apply IH].
Qed.

Lemma keeps_set_last_appliedParagraphStyle f sty :
  keeps (restyles f) (set_last_appliedParagraphStyle f sty).
Proof.
  intros d. unfold set_last_appliedParagraphStyle.
  destruct (appliedParagraphStyle_throws h d f sty); simpl; [reflexivity |].
  apply restyles_update_story. intros st.
  apply map_contents_imap. intros i c. by destruct (_ <=? i).
Qed.

Lemma keeps_set_fontStyle f c v : keeps (restyles f) (set_fontStyle f c v).
Proof.
  intros d. unfold set_fontStyle.
  destruct (story_of d f !! c) as [ch|]; simpl; [| reflexivity].
  destruct (fontStyle_throws h ch v); simpl; [reflexivity |].
  apply restyles_update_story. intros st. by apply map_contents_alter.
Qed.

Lemma keeps_set_underline f c : keeps (restyles f) (set_underline f c).
Proof.
  intros d. unfold set_underline.
  destruct (story_of d f !! c) as [ch|]; simpl; [| reflexivity].
  destruct (underline_throws h ch); simpl; [reflexivity |].
  apply restyles_update_story. intros st. by apply map_contents_alter.
Qed.

Lemma keeps_formatCharacter f c fmt :
  keeps (restyles f) (formatCharacter f c fmt).
Proof.
  unfold formatCharacter.
  apply keeps_bind; [apply _ | | intros []].
  - destruct (bold fmt);
      [apply keeps_set_fontStyle | apply keeps_ret; apply _].
  - apply keeps_bind; [apply _ | | intros []].
    + destruct (italic fmt);
        [apply keeps_set_fontStyle | apply keeps_ret; apply _].
    + destruct (underline fmt);
        [apply keeps_set_underline | apply keeps_ret; apply _].
Qed.

Lemma keeps_formatCharacters f fmt c n :
  keeps (restyles f) (formatCharacters f fmt c n).
Proof.
  revert c. induction n as [|n IH]; intros c; simpl.
  - apply keeps_ret; apply _.
  - apply keeps_bind; [apply _ | by intros d |]. intros len.
    destruct (c <? len); [| apply keeps_ret; apply _].
    apply keeps_bind; [apply _ | apply keeps_formatCharacter |].
    intros []. apply IH.
Qed.

Lemma keeps_formatRuns f rs charIndex :
  keeps (restyles f) (formatRuns f rs charIndex).
Proof.
  revert charIndex. induction rs as [|run rest IH]; intros charIndex; simpl.
  - apply keeps_ret; apply _.
  - destruct (formatting run) as [fmt|]; [| apply IH].
    destruct (truthy (text run)); [| apply IH].
    apply keeps_bind; [apply _ | | intros []; apply IH].
    apply keeps_try_catch; [apply _ | apply keeps_formatCharacters |].
    apply keeps_ret; apply _.
Qed.

Lemma keeps_getOrCreateStyle f sm name :
  keeps (restyles f) (getOrCreateStyle sm name).
Proof.
  intros d.
  destruct (getOrCreateStyle_resolved sm name d) as (d' & -> & Hp & Hf & _).
  simpl. unfold restyles, touches, story_of. rewrite Hp, Hf. by repeat split.
Qed.

(** After the insertion, [placeParagraph] only restyles the current frame. *)
Lemma placeParagraph_story sm p paragraphText l d l1 d1 :
  currentTextFrame l < length (frames d) ->
  placeParagraph sm p paragraphText l d = Returns l1 d1 ->
  touches (currentTextFrame l) d d1
  /\ map contents (story_of d1 (currentTextFrame l))
     = map contents (story_of d (currentTextFrame l))
       ++ list_ascii_of_string paragraphText
  /\ nextTextFrame <$> frames d1 !! currentTextFrame l
     = nextTextFrame <$> frames d !! currentTextFrame l.
Proof.
  intros Hf. unfold placeParagraph. intros H.
  set (f := currentTextFrame l) in *.
  inv_bind H. unfold characters_length in Hm. injection Hm as <- <-.
  inv_bind H. unfold set_contents in Hm.
  destruct (contents_throws h d f paragraphText); [discriminate |].
  injection Hm as <- <-.
  set (d2 := update_story f _ d) in *.
  assert (restyles f d2 d1) as (Ht & Hc & Hn).
  { revert H. apply keeps_Returns.
    apply keeps_bind; [apply _ | | intros []].
    - destruct (truthy_opt (style p)); [| apply keeps_ret; apply _].
      apply keeps_bind; [apply _ | apply keeps_getOrCreateStyle |].
      intros sty. apply keeps_try_catch; [apply _ | |].
      + apply keeps_set_last_appliedParagraphStyle.
      + apply keeps_ret; apply _.
    - apply keeps_bind; [apply _ | apply keeps_formatRuns |].
      intros []. apply keeps_ret; apply _. }
  split; [| split].
  - etransitivity; [| exact Ht]. apply touches_update_story.
  - rewrite Hc. unfold d2. rewrite story_of_update_story_eq by done.
    rewrite map_app, map_map. simpl. by rewrite map_id.
  - rewrite Hn. unfold d2, update_story; simpl.
    rewrite list_lookup_alter_eq. by destruct (frames d !! f).
Qed.

(** ** Overflow and the chain of frames (C2) *)

(** What the advance to the next page does. *)
Lemma checkOverflow_advance l d l' d' :
  currentTextFrame l < length (frames d) ->
  frame_overflows h d (currentTextFrame l) = true ->
  checkOverflow true l d = Returns l' d' ->
  exists new page,
    l' = mkLocals (S (currentPageIndex l)) (pagesCreated l + length new)
           (paragraphsPlaced l) (length (frames d))
           (linkedFrames l ++ [length (frames d)])
    /\ (pages d ++ new) !! S (currentPageIndex l) = Some page
    /\ pages d' = alter (fun p => mkPage (bounds p) (marginPreferences p)
                                    (textFrames p ++ [length (frames d)]))
                    (S (currentPageIndex l)) (pages d ++ new)
    /\ frames d'
       = alter (fun fr => mkTextFrame (geometricBounds fr) (parentStory fr)
                            (Some (length (frames d))))
           (currentTextFrame l) (frames d)
         ++ [mkTextFrame (frameBoundsOf (contentBoundsOf page)) [] None]
    /\ paragraphStyles d' = paragraphStyles d.
Proof.
  intros Hf Hov H.
  apply checkOverflow_cases in H as [(_ & _ & Hno) | (_ & _ & H)].
  { rewrite Hov in Hno. discriminate. }
  destruct H as (newFrame & created' & d1 & Hget & Hset & ->).
  apply getOrCreateTextFrame_spec in Hget
    as (new & page & -> & -> & Hpage & Hpages & Hframes & Hst).
  unfold set_nextTextFrame in Hset. injection Hset as <-.
  exists new, page. simpl. rewrite Hframes, Hpages, Hst.
  rewrite (alter_app_l _ (frames d)) by done. by repeat split.
Qed.

Lemma checkOverflow_frames autoFlow l d l' d' :
  currentTextFrame l < length (frames d) ->
  checkOverflow autoFlow l d = Returns l' d' ->
  currentTextFrame l <= currentTextFrame l'
  /\ currentTextFrame l' < length (frames d')
  /\ currentPageIndex l <= currentPageIndex l'
  /\ (forall f, f < length (frames d) -> story_of d' f = story_of d f).
Proof.
  intros Hf H.
  destruct (checkOverflow_cases _ _ _ _ _ H)
    as [(-> & -> & _) | (-> & Hov & _)]; [by auto |].
  destruct (checkOverflow_advance _ _ _ _ Hf Hov H)
    as (new & page & -> & _ & _ & Hframes & _).
  simpl. rewrite Hframes, length_app, length_alter; simpl.
  repeat split; [lia | lia | lia |].
  intros f Hlt. unfold story_of. rewrite Hframes.
  rewrite lookup_app_l by by rewrite length_alter.
  destruct (decide (f = currentTextFrame l)) as [-> | Hne].
  - rewrite list_lookup_alter_eq. by destruct (frames d !! currentTextFrame l).
  - by rewrite list_lookup_alter_ne.
Qed.

Lemma story_of_touches f f' d d' :
  touches f d d' -> f' <> f -> story_of d' f' = story_of d f'.
Proof. intros (_ & _ & Ho) Hne. unfold story_of. by rewrite Ho. Qed.

(** Every step keeps the current frame inside the document, moves forward in
    the frame store and in the pages, and leaves earlier frames alone. *)
Lemma processBlock_frames autoFlow sm block l d l' d' :
  currentTextFrame l < length (frames d) ->
  processBlock autoFlow sm block l d = Returns l' d' ->
  currentTextFrame l <= currentTextFrame l'
  /\ currentTextFrame l' < length (frames d')
  /\ currentPageIndex l <= currentPageIndex l'
  /\ (forall f, f < currentTextFrame l -> story_of d' f = story_of d f).
Proof.
  intros Hf. destruct block as [p | rows |]; simpl.
  - destruct (paragraphTextOf p) as [paragraphText|].
    + intros H. inv_bind H.
      pose proof (placeParagraph_locals _ _ _ _ _ _ _ Hm) as ->.
      apply placeParagraph_story in Hm as (Ht & _ & _); [| done].
      pose proof Ht as (_ & Hlen & _).
      apply checkOverflow_frames in H as (Hle & Hlt & Hpg & Hst);
        simpl in *; [| lia].
      repeat split; [done | done | done |].
      intros f Hlf. rewrite Hst by lia.
      apply (story_of_touches _ _ _ _ Ht). lia.
    + intros H. inv_ret H. by auto.
  - destruct (truthy (tableTextOf rows)); intros H.
    + inv_bind H. inv_ret H. unfold set_contents in Hm.
      destruct (contents_throws h d _ _); [discriminate |].
      injection Hm as <- <-. rewrite length_frames_update_story. simpl.
      repeat split; try done.
      intros f Hlf. apply story_of_update_story_ne. lia.
    + inv_ret H. by auto.
  - intros H. inv_ret H. by auto.
Qed.

Lemma processBlocks_frames autoFlow sm blocks l d l' d' :
  currentTextFrame l < length (frames d) ->
  processBlocks autoFlow sm blocks l d = Returns l' d' ->
  currentTextFrame l <= currentTextFrame l'
  /\ currentTextFrame l' < length (frames d')
  /\ currentPageIndex l <= currentPageIndex l'
  /\ (forall f, f < currentTextFrame l -> story_of d' f = story_of d f).
Proof.
  revert l d. induction blocks as [|block rest IH]; intros l d Hf; simpl.
  - intros H. inv_ret H. by auto.
  - intros H. inv_bind H.
    apply processBlock_frames in Hm as (Hle1 & Hlt1 & Hpg1 & Hst1); [| done].
    apply IH in H as (Hle2 & Hlt2 & Hpg2 & Hst2); [| done].
    repeat split; [lia | done | lia |].
    intros f Hlf. rewrite Hst2 by lia. by apply Hst1.
Qed.

(** The first frame is a frame of the document, so the current frame is one
    throughout the flow. *)
Lemma initialLocals_current_frame startPage d l d' :
  initialLocals startPage d = Returns l d' ->
  currentTextFrame l < length (frames d').
Proof.
  unfold initialLocals. intros H. inv_bind H. inv_ret H.
  destruct a as [f created]. simpl.
  apply getOrCreateTextFrame_spec in Hm as (new & page & -> & _ & _ & _ & -> & _).
  rewrite length_app. simpl. lia.
Qed.

(** The page index never decreases, whatever the frames are. *)
Lemma processBlock_page_monotone autoFlow sm block l d l' d' :
  processBlock autoFlow sm block l d = Returns l' d' ->
  currentPageIndex l <= currentPageIndex l'.
Proof.
  destruct block as [p | rows |]; simpl.
  - destruct (paragraphTextOf p) as [paragraphText|].
    + intros H. inv_bind H. apply placeParagraph_locals in Hm as ->.
      apply checkOverflow_cases in H
        as [(-> & _ & _) | (_ & _ & nf & c & d1 & _ & _ & ->)]; simpl; lia.
    + intros H. by inv_ret H.
  - destruct (truthy (tableTextOf rows)); intros H.
    + inv_bind H. by inv_ret H.
    + by inv_ret H.
  - intros H. by inv_ret H.
Qed.

Lemma processBlocks_page_monotone autoFlow sm blocks l d l' d' :
  processBlocks autoFlow sm blocks l d = Returns l' d' ->
  currentPageIndex l <= currentPageIndex l'.
Proof.
  revert l d. induction blocks as [|block rest IH]; intros l d; simpl.
  - intros H. by inv_ret H.
  - intros H. inv_bind H. apply processBlock_page_monotone in Hm.
    apply IH in H. lia.
Qed.

(** C2: with auto-flow on, when the current frame overflows once a paragraph
    is placed, the step moves to the next page index, allocates a new empty
    frame on that page, links the former frame to it, appends it to the chain
    and makes it current; whatever is processed afterwards leaves the story
    of the former frame as it was; and the page index never decreases. *)
Theorem overflow_advances_one_page
    sm p paragraphText l d l1 d1 l2 d2 rest l3 d3 :
  currentTextFrame l < length (frames d) ->
  paragraphTextOf p = Some paragraphText ->
  placeParagraph sm p paragraphText l d = Returns l1 d1 ->
  frame_overflows h d1 (currentTextFrame l) = true ->
  processBlock true sm (ParagraphBlock p) l d = Returns l2 d2 ->
  processBlocks true sm rest l2 d2 = Returns l3 d3 ->
  let old := currentTextFrame l in
  let new := currentTextFrame l2 in
  currentPageIndex l2 = S (currentPageIndex l)
  /\ new = length (frames d1)
  /\ (exists page, pages d2 !! currentPageIndex l2 = Some page
                   /\ new ∈ textFrames page)
  /\ story_of d2 new = []
  /\ nextTextFrame <$> frames d2 !! old = Some (Some new)
  /\ linkedFrames l2 = linkedFrames l ++ [new]
  /\ new <> old
  /\ story_of d2 old = story_of d1 old
  /\ story_of d3 old = story_of d1 old
  /\ currentPageIndex l2 <= currentPageIndex l3
  /\ (forall autoFlow blocks la da lb db,
         processBlocks autoFlow sm blocks la da = Returns lb db ->
         currentPageIndex la <= currentPageIndex lb).
Proof.
  intros Hf Htext Hplace Hov Hstep Hrest. simpl in Hstep.
  rewrite Htext in Hstep. erewrite bind_eval in Hstep by exact Hplace.
  pose proof (placeParagraph_locals _ _ _ _ _ _ _ Hplace) as ->.
  apply placeParagraph_story in Hplace as ((_ & Hlen & _) & _ & _); [| done].
  apply checkOverflow_advance in Hstep
    as (created & page & -> & Hpage & Hpages & Hframes & _);
    simpl in *; [| lia | done].
  assert (currentTextFrame l < length (frames d1)) as Hf1 by lia.
  assert (story_of d2 (currentTextFrame l) = story_of d1 (currentTextFrame l))
    as Hold.
  { unfold story_of. rewrite Hframes, lookup_app_l by by rewrite length_alter.
    rewrite list_lookup_alter_eq.
    by destruct (frames d1 !! currentTextFrame l). }
  apply processBlocks_frames in Hrest as Hfr; simpl in *.
  2:{ rewrite Hframes, length_app, length_alter. simpl. lia. }
  destruct Hfr as (_ & _ & Hpg & Hst).
  repeat split; try done.
  - exists (mkPage (bounds page) (marginPreferences page)
              (textFrames page ++ [length (frames d1)])).
    rewrite Hpages, list_lookup_alter_eq, Hpage. split; [done |]. simpl.
    apply elem_of_app. right. by apply list_elem_of_singleton.
  - unfold story_of. rewrite Hframes, lookup_app_r by by rewrite length_alter.
    rewrite length_alter.
    by replace (length (frames d1) - length (frames d1)) with 0 by lia.
  - rewrite Hframes, lookup_app_l by by rewrite length_alter.
    rewrite list_lookup_alter_eq.
    by destruct (lookup_lt_is_Some_2 _ _ Hf1) as [fr ->].
  - lia.
  - rewrite Hst by lia. exact Hold.
  - intros autoFlow blocks la da lb db. apply processBlocks_page_monotone.
Qed.

(** ** Tables (C3, C10) *)

Lemma concat_empty_cons (x : string) (l : list string) :
  String.concat "" (x :: l) = x +:+ String.concat "" l.
Proof. destruct l as [|y l]; simpl; [by rewrite append_nil_r | done]. Qed.

Lemma runsText_concat rs acc :
  runsText rs acc = acc +:+ String.concat "" (map text rs).
Proof.
  unfold runsText. revert acc.
  induction rs as [|run rest IH]; intros acc.
  - simpl. by rewrite append_nil_r.
  - cbn [fold_left map]. rewrite IH, concat_empty_cons. apply append_assoc.
Qed.



Lemma processBlock_paragraphsPlaced autoFlow sm block l d l' d' :
  processBlock autoFlow sm block l d = Returns l' d' ->
  paragraphsPlaced l'
  = paragraphsPlaced l + (if placesText block then 1 else 0).
Proof.
  destruct block as [p | rows |]; simpl.
  - destruct (paragraphTextOf p) as [paragraphText|].
    + intros H. inv_bind H. apply placeParagraph_locals in Hm as ->.
      apply checkOverflow_cases in H
        as [(-> & _ & _) | (_ & _ & nf & c & d1 & _ & _ & ->)]; simpl; lia.
    + intros H. inv_ret H. lia.
  - destruct (truthy (tableTextOf rows)); intros H.
    + inv_bind H. inv_ret H. simpl. lia.
    + inv_ret H. lia.
  - intros H. inv_ret H. lia.
Qed.

Lemma processBlocks_paragraphsPlaced autoFlow sm blocks l d l' d' :
  processBlocks autoFlow sm blocks l d = Returns l' d' ->
  paragraphsPlaced l' = paragraphsPlaced l + length (List.filter placesText blocks).
Proof.
  revert l d. induction blocks as [|block rest IH]; intros l d; simpl.
  - intros H. inv_ret H. lia.
  - intros H. inv_bind H. apply processBlock_paragraphsPlaced in Hm.
    apply IH in H. rewrite H, Hm.
    destruct (placesText block); simpl; lia.
Qed.


(** C10: a table block whose text is not empty adds exactly one to
    [paragraphsPlaced]; a table block without rows, or whose text is empty,
    changes nothing; so the summary counts the tables that placed text
    together with the paragraphs that did. *)
Theorem tables_count_as_paragraphs :
  (forall autoFlow sm rows l d l' d',
      tableTextOf rows <> ""%string ->
      processBlock autoFlow sm (TableBlock rows) l d = Returns l' d' ->
      paragraphsPlaced l' = S (paragraphsPlaced l))
  /\ (forall autoFlow sm rows l d,
         rows = [] \/ tableTextOf rows = ""%string ->
         processBlock autoFlow sm (TableBlock rows) l d = Returns l d)
  /\ (forall options d s d',
         layoutWordContent options d = Returns s d' ->
         sum_paragraphsPlaced s
         = length (List.filter placesText (default [] (content options)))).
Proof.
  split; [| split].
  - intros autoFlow sm rows l d l' d' Hne H.
    apply processBlock_paragraphsPlaced in H. simpl in H.
    destruct (truthy (tableTextOf rows)) eqn:Htr; [lia |].
    by apply truthy_false in Htr.
  - intros autoFlow sm rows l d Hempty. simpl.
    assert (tableTextOf rows = ""%string) as ->; [| done].
    by destruct Hempty as [-> | ->].
  - intros options d s d'. unfold layoutWordContent. intros H.
    inv_bind H. inv_bind H. inv_ret H. simpl.
    apply processBlocks_paragraphsPlaced in Hm0. rewrite Hm0.
    unfold initialLocals in Hm. inv_bind Hm. by inv_ret Hm.
Qed.

(** ** Paragraphs without text (C4) *)

Lemma concat_empty_nil (l : list string) :
  String.concat "" l = ""%string -> Forall (fun x => x = ""%string) l.
Proof.
  induction l as [|x l IH]; [by constructor |].
  rewrite concat_empty_cons. intros [-> Hl]%append_eq_nil.
  constructor; [done | by apply IH].
Qed.

Lemma runsText_empty rs :
  runsText rs "" = ""%string -> Forall (fun run => text run = ""%string) rs.
Proof.
  rewrite runsText_concat. intros [_ H]%append_eq_nil.
  apply concat_empty_nil in H. by apply Forall_fmap in H.
Qed.

(** Runs without text are skipped by the run formatter. *)
Lemma formatRuns_no_text f rs charIndex d :
  Forall (fun run => text run = ""%string) rs ->
  formatRuns f rs charIndex d = Returns tt d.
Proof.
  induction 1 as [|run rest Hrun _ IH]; simpl; [done |].
  rewrite Hrun. simpl. by destruct (formatting run).
Qed.

(** The last character of a story belongs to its last paragraph. *)
Lemma last_paragraph_start_le i start st :
  start <= i -> last_paragraph_start i start st <= i + (length st - 1).
Proof.
  revert i start. induction st as [|c rest IH]; intros i start Hle; simpl.
  - lia.
  - destruct rest as [|c' rest']; [simpl; lia |].
    etransitivity; [apply IH |].
    + destruct (is_CR c); lia.
    + simpl. lia.
Qed.

Lemma getOrCreateStyle_frames sm name d sty d' :
  getOrCreateStyle sm name d = Returns sty d' ->
  frames d' = frames d /\ sty = resolved_style sm name d.
Proof.
  destruct (getOrCreateStyle_resolved sm name d) as (d1 & -> & _ & Hf & _).
  by intros [= <- <-].
Qed.

Lemma story_of_frames_eq d d' f :
  frames d' = frames d -> story_of d' f = story_of d f.
Proof. unfold story_of. by intros ->. Qed.

(** C4: a paragraph whose runs concatenate to the empty string changes
    nothing when it has no style name; when it has one, the text of the
    current story grows by exactly one paragraph break, that break carries
    the style its name resolves to in the document after the insertion (the
    target name when a style of that name exists or is created, and
    "[Basic Paragraph]" only when it cannot be created), if the host accepts
    the assignment of the style, and [paragraphsPlaced] grows by one. *)
Theorem empty_paragraph autoFlow sm p l d :
  runsText (runs p) "" = ""%string ->
  (truthy_opt (style p) = None ->
   processBlock autoFlow sm (ParagraphBlock p) l d = Returns l d)
  /\ (forall s l' d',
         truthy_opt (style p) = Some s ->
         currentTextFrame l < length (frames d) ->
         (forall d2 sty,
             appliedParagraphStyle_throws h d2 (currentTextFrame l) sty = false) ->
         processBlock autoFlow sm (ParagraphBlock p) l d = Returns l' d' ->
         paragraphsPlaced l' = S (paragraphsPlaced l)
         /\ story_text d' (currentTextFrame l)
            = story_text d (currentTextFrame l) +:+ CR
         /\ exists c,
              last (story_of d' (currentTextFrame l)) = Some c
              /\ contents c = "013"%char
              /\ appliedParagraphStyle c
                 = Some (resolved_style sm s
                           (appended (currentTextFrame l) CR d))).
Proof.
  intros Hempty.
  assert (paragraphTextOf p
          = match truthy_opt (style p) with
            | Some _ => Some CR
            | None => None
            end) as Htext.
  { unfold paragraphTextOf. by rewrite Hempty. }
  split.
  - intros Hnone. simpl. by rewrite Htext, Hnone.
  - intros s l' d' Hs Hf Hhost H. simpl in H. rewrite Htext, Hs in H.
    set (f := currentTextFrame l) in *.
    inv_bind H. rename d0 into d1, a into l1, Hm into Hplace.
    pose proof (placeParagraph_locals _ _ _ _ _ _ _ Hplace) as ->.
    pose proof (placeParagraph_story _ _ _ _ _ _ _ Hf Hplace)
      as ((_ & Hlen & _) & Hcontents & _).
    fold f in Hlen, Hcontents.
    (* the story of the current frame after the placement *)
    assert (exists sty,
               sty = resolved_style sm s (appended f CR d)
               /\ story_of d1 f
                  = (fun st =>
                       imap (fun i c =>
                               if last_paragraph_start 0 0 st <=? i
                               then set_paragraph_style sty c else c) st)
                      (story_of d f ++ [plain "013"%char]))
      as (sty & Hsty & Hstory).
    { unfold placeParagraph in Hplace. fold f in Hplace. rewrite Hs in Hplace.
      inv_bind Hplace. unfold characters_length in Hm. injection Hm as <- <-.
      inv_bind Hplace. unfold set_contents in Hm.
      destruct (contents_throws h d f CR); [discriminate |].
      injection Hm as <- <-.
      inv_bind Hplace. inv_bind Hm. rename a0 into sty.
      apply getOrCreateStyle_frames in Hm0 as [Hfr Hsty].
      unfold try_catch, set_last_appliedParagraphStyle in Hm.
      rewrite Hhost in Hm. injection Hm as <- <-.
      inv_bind Hplace.
      rewrite formatRuns_no_text in Hm by by apply runsText_empty.
      injection Hm as <- <-. unfold ret in Hplace. injection Hplace as <-.
      exists sty. split; [done |].
      rewrite story_of_update_story_eq.
      2:{ rewrite Hfr, length_frames_update_story. done. }
      rewrite (story_of_frames_eq _ _ _ Hfr).
      by rewrite story_of_update_story_eq. }
    (* the overflow check keeps the stories and the counter *)
    assert (story_of d' f = story_of d1 f /\ paragraphsPlaced l' = S (paragraphsPlaced l))
      as [Hd' Hcount].
    { split.
      - apply checkOverflow_frames in H as (_ & _ & _ & Hst); simpl; [| lia].
        apply Hst. lia.
      - apply checkOverflow_cases in H
          as [(-> & _ & _) | (_ & _ & nf & c & d2 & _ & _ & ->)]; done. }
    split; [done |]. split.
    + unfold story_text. rewrite Hd', Hcontents, string_of_list_ascii_app.
      done.
    + rewrite Hd', Hstory. simpl.
      set (st := story_of d f ++ [plain "013"%char]).
      set (start := last_paragraph_start 0 0 st).
      exists (set_paragraph_style sty (plain "013"%char)).
      split; [| by rewrite <- Hsty].
      rewrite last_lookup, length_imap, list_lookup_imap.
      assert (start <= pred (length st)) as Hstart.
      { pose proof (last_paragraph_start_le 0 0 st). lia. }
      assert (pred (length st) = length (story_of d f)) as Hlast.
      { unfold st. rewrite length_app. simpl. lia. }
      rewrite Hlast in *.
      assert (st !! length (story_of d f) = Some (plain "013"%char)) as ->.
      { unfold st. by apply list_lookup_middle. }
      simpl. by apply Nat.leb_le in Hstart as ->.
Qed.

(** ** One paragraph on an existing page (C5) *)

Lemma ensurePage_existing pageIndex created d :
  pageIndex < length (pages d) ->
  ensurePage pageIndex created d = Returns created d.
Proof.
  intros Hlt. unfold ensurePage.
  replace (S pageIndex - length (pages d)) with 0 by lia.
  simpl. case_decide; [lia | done].
Qed.

Lemma getOrCreateTextFrame_existing pageIndex created d page :
  pages d !! pageIndex = Some page ->
  textFrames_add_throws h d pageIndex (frameBoundsOf (contentBoundsOf page))
  = false ->
  getOrCreateTextFrame pageIndex created d
  = Returns (length (frames d), created)
      (mkDocument
         (alter (fun p => mkPage (bounds p) (marginPreferences p)
                            (textFrames p ++ [length (frames d)]))
            pageIndex (pages d))
         (frames d ++ [mkTextFrame (frameBoundsOf (contentBoundsOf page))
                         [] None])
         (paragraphStyles d)).
Proof.
  intros Hpage Hadd. unfold getOrCreateTextFrame.
  erewrite bind_eval.
  2:{ apply ensurePage_existing. by apply lookup_lt_is_Some_1. }
  erewrite bind_eval.
  2:{ unfold getPageContentBounds. rewrite Hpage. reflexivity. }
  erewrite bind_eval.
  2:{ unfold textFrames_add.
      change (textFrames_add_throws h d pageIndex _)
        with (textFrames_add_throws h d pageIndex
                (frameBoundsOf (contentBoundsOf page))).
      rewrite Hadd. reflexivity. }
  done.
Qed.

Lemma lookup_length_snoc {A} (l : list A) (x : A) :
  (l ++ [x]) !! length l = Some x.
Proof. by apply list_lookup_middle. Qed.

Lemma getOrCreateStyle_accepted sm name target d :
  mapped_name sm name = StringValue target ->
  (forall d' n, paragraphStyles_add_throws h d' n = false) ->
  exists d',
    getOrCreateStyle sm name d = Returns target d'
    /\ pages d' = pages d /\ frames d' = frames d.
Proof.
  intros Hname Hadd. rewrite getOrCreateStyle_cases, Hname. simpl.
  destruct (bool_decide _); [by eauto |]. rewrite Hadd. by eauto.
Qed.

(** C5: on a document whose page 0 exists and holds no frame, with a host
    that accepts every request and a frame that takes six characters without
    overflowing, the flow of the single paragraph "Hello" of style "Normal",
    mapped to "Body Text", from page 0 with auto-flow returns the summary
    pagesCreated 0, paragraphsPlaced 1, framesCreated 1, startPage 0,
    endPage 0; page 0 then holds exactly one frame, whose text is "Hello\r"
    and whose characters all carry the paragraph style "Body Text". *)
Theorem hello_on_existing_page d page0 :
  pages d !! 0 = Some page0 ->
  textFrames page0 = [] ->
  (forall d' i b, textFrames_add_throws h d' i b = false) ->
  (forall d' f s, contents_throws h d' f s = false) ->
  (forall d' n, paragraphStyles_add_throws h d' n = false) ->
  (forall d' f s, appliedParagraphStyle_throws h d' f s = false) ->
  (forall d' f, length (story_of d' f) <= 6 -> frame_overflows h d' f = false) ->
  exists d' f page,
    layoutWordContent hello_options d = Returns (mkSummary 0 1 1 0 0) d'
    /\ pages d' !! 0 = Some page
    /\ textFrames page = [f]
    /\ story_text d' f = "Hello" +:+ CR
    /\ Forall (fun c => appliedParagraphStyle c = Some "Body Text"%string)
         (story_of d' f).
Proof.
  intros Hpage Hempty Hadd Hins Hsty Happly Hcap.
  set (sm := {[ "Normal"%string := "Body Text"%string ]} : gmap string string).
  set (f := length (frames d)).
  set (text := ("Hello" +:+ CR)%string).
  (* the first frame *)
  pose proof (getOrCreateTextFrame_existing 0 0 d page0 Hpage (Hadd _ _ _))
    as Hframe.
  fold f in Hframe.
  set (d1 := mkDocument _ (frames d ++ _) _) in Hframe.
  assert (story_of d1 f = []) as Hstory1.
  { unfold story_of, d1, f. simpl. by rewrite lookup_length_snoc. }
  assert (f < length (frames d1)) as Hf1.
  { unfold d1, f. simpl. rewrite length_app. simpl. lia. }
  (* the insertion and the style *)
  set (d2 := update_story f
               (fun st => st ++ map plain (list_ascii_of_string text)) d1).
  assert (mapped_name sm "Normal" = StringValue "Body Text") as Hname.
  { unfold mapped_name, sm. by rewrite lookup_singleton_eq. }
  destruct (getOrCreateStyle_accepted sm "Normal" "Body Text" d2 Hname Hsty)
    as (d3 & Hstyle & Hpages3 & Hframes3).
  set (d4 := update_story f
               (fun st =>
                  let start := last_paragraph_start 0 0 st in
                  imap (fun i c => if start <=? i
                                   then set_paragraph_style "Body Text" c
                                   else c) st) d3).
  assert (story_of d4 f
          = map (set_paragraph_style "Body Text")
              (map plain (list_ascii_of_string text))) as Hstory4.
  { unfold d4. rewrite story_of_update_story_eq.
    2:{ rewrite Hframes3. unfold d2. by rewrite length_frames_update_story. }
    rewrite (story_of_frames_eq _ _ _ Hframes3). unfold d2.
    rewrite story_of_update_story_eq, Hstory1 by done. reflexivity. }
  set (l0 := mkLocals 0 0 0 f [f]).
  set (l1 := mkLocals 0 0 1 f [f]).
  assert (placeParagraph sm hello_paragraph text l0 d1 = Returns l1 d4)
    as Hplace.
  { unfold placeParagraph. simpl.
    erewrite bind_eval by reflexivity.
    erewrite bind_eval by (unfold set_contents; rewrite Hins; reflexivity).
    fold text d2.
    erewrite bind_eval.
    2:{ erewrite bind_eval by exact Hstyle.
        unfold try_catch, set_last_appliedParagraphStyle.
        rewrite Happly. reflexivity. }
    reflexivity. }
  assert (checkOverflow true l1 d4 = Returns l1 d4) as Hcheck.
  { unfold checkOverflow, overflows. simpl.
    erewrite bind_eval by reflexivity.
    rewrite Hcap; [done |]. rewrite Hstory4. simpl. lia. }
  exists d4, f, (mkPage (bounds page0) (marginPreferences page0) [f]).
  split; [| split; [| split; [| split]]].
  - unfold layoutWordContent, hello_options. simpl. fold sm.
    unfold initialLocals.
    erewrite bind_eval.
    2:{ erewrite bind_eval by exact Hframe. reflexivity. }
    simpl. fold l0.
    erewrite bind_eval.
    2:{ erewrite bind_eval.
        2:{ change (paragraphTextOf hello_paragraph) with (Some text).
            erewrite bind_eval by exact Hplace. exact Hcheck. }
        reflexivity. }
    reflexivity.
  - unfold d4. simpl. rewrite Hpages3. unfold d2, d1. simpl.
    rewrite list_lookup_alter_eq, Hpage. simpl. by rewrite Hempty.
  - done.
  - unfold story_text. rewrite Hstory4. reflexivity.
  - rewrite Hstory4. simpl. repeat constructor.
Qed.

(** * Further properties of the flow engine *)

(** ** Relations kept by every change of a story *)

Section KeepsStory.

Variable R : Document -> Document -> Prop.
Context `{!PreOrder R}.
Hypothesis R_update_story : forall f g d, R d (update_story f g d).

Lemma story_keeps_characters_length f : keeps R (characters_length f).
Proof. intros d. simpl. reflexivity. Qed.

Lemma story_keeps_set_contents f s : keeps R (set_contents f s).
Proof.
  intros d. unfold set_contents.
  destruct (contents_throws h d f s); simpl; [reflexivity | apply R_update_story].
Qed.

Lemma story_keeps_set_last_appliedParagraphStyle f sty :
  keeps R (set_last_appliedParagraphStyle f sty).
Proof.
  intros d. unfold set_last_appliedParagraphStyle.
  destruct (appliedParagraphStyle_throws h d f sty); simpl;
    [reflexivity | apply R_update_story].
Qed.

Lemma story_keeps_set_fontStyle f c v : keeps R (set_fontStyle f c v).
Proof.
  intros d. unfold set_fontStyle.
  destruct (story_of d f !! c) as [ch|]; simpl; [| reflexivity].
  destruct (fontStyle_throws h ch v); simpl;
    [reflexivity | apply R_update_story].
Qed.

Lemma story_keeps_set_underline f c : keeps R (set_underline f c).
Proof.
  intros d. unfold set_underline.
  destruct (story_of d f !! c) as [ch|]; simpl; [| reflexivity].
  destruct (underline_throws h ch); simpl;
    [reflexivity | apply R_update_story].
Qed.

Lemma story_keeps_formatCharacter f c fmt : keeps R (formatCharacter f c fmt).
Proof.
  unfold formatCharacter.
  apply keeps_bind; [apply _ | | intros []].
  - destruct (bold fmt);
      [apply story_keeps_set_fontStyle | apply keeps_ret; apply _].
  - apply keeps_bind; [apply _ | | intros []].
    + destruct (italic fmt);
        [apply story_keeps_set_fontStyle | apply keeps_ret; apply _].
    + destruct (underline fmt);
        [apply story_keeps_set_underline | apply keeps_ret; apply _].
Qed.

Lemma story_keeps_formatCharacters f fmt c n :
  keeps R (formatCharacters f fmt c n).
Proof.
  revert c. induction n as [|n IH]; intros c; simpl.
  - apply keeps_ret; apply _.
  - apply keeps_bind; [apply _ | apply story_keeps_characters_length |].
    intros len. destruct (c <? len); [| apply keeps_ret; apply _].
    apply keeps_bind; [apply _ | apply story_keeps_formatCharacter |].
    intros []. apply IH.
Qed.

Lemma story_keeps_formatRuns f rs charIndex :
  keeps R (formatRuns f rs charIndex).
Proof.
  revert charIndex. induction rs as [|run rest IH]; intros charIndex; simpl.
  - apply keeps_ret; apply _.
  - destruct (formatting run) as [fmt|]; [| apply IH].
    destruct (truthy (text run)); [| apply IH].
    apply keeps_bind; [apply _ | | intros []; apply IH].
    apply keeps_try_catch; [apply _ | apply story_keeps_formatCharacters |].
    apply keeps_ret; apply _.
Qed.

(** [placeParagraph] keeps what the style resolver keeps as well. *)
Lemma story_keeps_placeParagraph sm p paragraphText l :
  (forall name, keeps R (getOrCreateStyle sm name)) ->
  keeps R (placeParagraph sm p paragraphText l).
Proof.
  intros Hstyle. unfold placeParagraph.
  apply keeps_bind; [apply _ | apply story_keeps_characters_length |].
  intros startIndex.
  apply keeps_bind; [apply _ | apply story_keeps_set_contents | intros []].
  apply keeps_bind; [apply _ | | intros []].
  - destruct (truthy_opt (style p)); [| apply keeps_ret; apply _].
    apply keeps_bind; [apply _ | apply Hstyle |]. intros sty.
    apply keeps_try_catch; [apply _ | |].
    + apply story_keeps_set_last_appliedParagraphStyle.
    + apply keeps_ret; apply _.
  - apply keeps_bind; [apply _ | apply story_keeps_formatRuns |].
    intros []. apply keeps_ret; apply _.
Qed.

End KeepsStory.

Local Instance styles_extend_preorder : PreOrder styles_extend.
Proof.
  split.
  - intros d. unfold styles_extend. reflexivity.
  - intros d1 d2 d3. unfold styles_extend. apply transitivity.
Qed.

Lemma placeParagraph_styles sm p paragraphText l d l1 d1 :
  placeParagraph sm p paragraphText l d = Returns l1 d1 ->
  paragraphStyles d `prefix_of` paragraphStyles d1.
Proof.
  apply (keeps_Returns styles_extend).
  apply story_keeps_placeParagraph;
    [apply _ | intros f g d0; unfold styles_extend; simpl; reflexivity |].
  intros name d0.
  destruct (getOrCreateStyle_resolved sm name d0)
    as (d' & -> & _ & _ & [Hs | [_ Hs]]); unfold styles_extend; simpl;
    rewrite Hs; [reflexivity | by apply prefix_app_r].
Qed.

Local Instance pages_extend_preorder : PreOrder pages_extend.
Proof.
  split.
  - intros d i p Hp. exists p. by repeat split.
  - intros d1 d2 d3 H12 H23 i p Hp.
    destruct (H12 i p Hp) as (p2 & Hp2 & Hb2 & Hm2 & Hf2).
    destruct (H23 i p2 Hp2) as (p3 & Hp3 & Hb3 & Hm3 & Hf3).
    exists p3. repeat split; [done | congruence | congruence |].
    by etransitivity.
Qed.

Lemma pages_extend_same d d' : pages d' = pages d -> pages_extend d d'.
Proof. intros Heq i p Hp. exists p. rewrite Heq. by repeat split. Qed.

Lemma getOrCreateTextFrame_pages_extend pageIndex created d f created' d' :
  getOrCreateTextFrame pageIndex created d = Returns (f, created') d' ->
  pages_extend d d'.
Proof.
  intros H.
  apply getOrCreateTextFrame_spec in H
    as (new & page & -> & _ & _ & Hpages & _ & _).
  intros i p Hp. rewrite Hpages.
  assert ((pages d ++ new) !! i = Some p) as Hp' by by apply lookup_app_l_Some.
  destruct (decide (pageIndex = i)) as [-> | Hne].
  - rewrite list_lookup_alter_eq, Hp'. simpl. eexists. split; [done |].
    simpl. repeat split. by apply prefix_app_r.
  - rewrite list_lookup_alter_ne by done. exists p. by repeat split.
Qed.

(** ** The invariant of the flow *)

Lemma pages_extend_add_frame d d' new pageIndex f :
  pages d' = alter (fun p => mkPage (bounds p) (marginPreferences p)
                                (textFrames p ++ [f])) pageIndex
               (pages d ++ new) ->
  pages_extend d d'.
Proof.
  intros Hpages i p Hp. rewrite Hpages.
  assert ((pages d ++ new) !! i = Some p) as Hp' by by apply lookup_app_l_Some.
  destruct (decide (pageIndex = i)) as [-> | Hne].
  - rewrite list_lookup_alter_eq, Hp'. simpl. eexists. split; [done |].
    simpl. repeat split. by apply prefix_app_r.
  - rewrite list_lookup_alter_ne by done. exists p. by repeat split.
Qed.

Lemma pages_extend_member d d' i page f :
  pages_extend d d' ->
  pages d !! i = Some page -> f ∈ textFrames page ->
  exists page', pages d' !! i = Some page' /\ f ∈ textFrames page'.
Proof.
  intros Hext Hp Hin. destruct (Hext i page Hp) as (p' & Hp' & _ & _ & [k Hk]).
  exists p'. split; [done |]. rewrite Hk. apply elem_of_app. by left.
Qed.

Lemma initialLocals_flow_invariant startPage d l d' :
  initialLocals startPage d = Returns l d' ->
  flow_invariant d startPage l d'.
Proof.
  unfold initialLocals. intros H. inv_bind H. inv_ret H.
  destruct a as [f created]. simpl.
  pose proof (getOrCreateTextFrame_pages_extend _ _ _ _ _ _ Hm) as Hext.
  apply getOrCreateTextFrame_spec in Hm
    as (new & page & -> & -> & Hpage & Hpages & Hframes & Hstyles).
  unfold flow_invariant. simpl.
  split; [done |].
  split; [by rewrite Hframes, length_app |].
  split; [by rewrite Hframes, length_app |].
  split; [lia |].
  split; [by rewrite Hpages, length_alter, length_app |].
  split; [intros f Hf; by rewrite Hframes, lookup_app_l |].
  split.
  { intros i Hi. assert (i = 0) as -> by lia. rewrite Nat.add_0_r.
    by rewrite Hframes, lookup_length_snoc. }
  split.
  { intros i Hi. assert (i = 0) as -> by lia. rewrite Nat.add_0_r.
    rewrite Hpages, list_lookup_alter_eq, Hpage. simpl.
    eexists. split; [done |]. simpl.
    apply elem_of_app. right. by apply list_elem_of_singleton. }
  split; [done |]. split; [by rewrite Hstyles | lia].
Qed.

(** A step that only changes the story of the current frame. *)
Lemma flow_invariant_story_step d0 startPage l d l1 d1 :
  flow_invariant d0 startPage l d ->
  touches (currentTextFrame l) d d1 ->
  nextTextFrame <$> frames d1 !! currentTextFrame l
  = nextTextFrame <$> frames d !! currentTextFrame l ->
  paragraphStyles d `prefix_of` paragraphStyles d1 ->
  currentPageIndex l1 = currentPageIndex l ->
  pagesCreated l1 = pagesCreated l ->
  currentTextFrame l1 = currentTextFrame l ->
  linkedFrames l1 = linkedFrames l ->
  flow_invariant d0 startPage l1 d1.
Proof.
  intros (Hchain & Hlen & Hcur & Hpage & Hpages & Hold & Hlinks & Hon & Hext
          & Hsty & Hk) (Hp1 & Hl1 & Ho1) Hnext Hsty1 E1 E2 E3 E4.
  unfold flow_invariant. rewrite E1, E2, E3, E4, Hp1, Hl1.
  split; [done |]. split; [done |]. split; [done |]. split; [done |].
  split; [done |].
  split; [intros f Hf; rewrite Ho1 by lia; by apply Hold |].
  split.
  { intros i Hi.
    destruct (decide (length (frames d0) + i = currentTextFrame l)) as [E | E].
    - rewrite E, Hnext, <- E. by apply Hlinks.
    - rewrite Ho1 by done. by apply Hlinks. }
  split; [intros i Hi; by apply Hon |].
  split; [etransitivity; [exact Hext | by apply pages_extend_same] |].
  split; [by etransitivity | done].
Qed.

Lemma checkOverflow_flow_invariant autoFlow d0 startPage l d l' d' :
  flow_invariant d0 startPage l d ->
  checkOverflow autoFlow l d = Returns l' d' ->
  flow_invariant d0 startPage l' d'.
Proof.
  intros Hinv H.
  destruct (checkOverflow_cases _ _ _ _ _ H)
    as [(-> & -> & _) | (-> & Hov & _)]; [done |].
  destruct Hinv as (Hchain & Hlen & Hcur & Hpage & Hpages & Hold & Hlinks
                    & Hon & Hext & Hsty & Hk).
  apply checkOverflow_advance in H
    as (new & page & -> & Hnewpage & Hpages' & Hframes' & Hsty');
    [| lia | done].
  pose proof (pages_extend_add_frame _ _ _ _ _ Hpages') as Hstep.
  set (k := length (linkedFrames l)) in *.
  set (n0 := length (frames d0)) in *.
  assert (length (frames d) = n0 + k) as Hn by done.
  unfold flow_invariant. simpl. rewrite length_app. simpl. fold k n0.
  split.
  { rewrite Nat.add_1_r, seq_S, <- Hchain. by rewrite Hn. }
  split; [rewrite Hframes', length_app, length_alter; simpl; lia |].
  split; [rewrite Hframes', length_app, length_alter; simpl; lia |].
  split; [lia |].
  split; [rewrite Hpages', length_alter, length_app; lia |].
  split.
  { intros f Hf. rewrite Hframes', lookup_app_l by (rewrite length_alter; lia).
    rewrite list_lookup_alter_ne by lia. by apply Hold. }
  split.
  { intros i Hi. rewrite Hframes'.
    destruct (decide (i = k)) as [-> | Hik].
    - rewrite lookup_app_r by (rewrite length_alter; lia).
      rewrite length_alter, Hn.
      replace (n0 + k - (n0 + k)) with 0 by lia. simpl.
      by rewrite decide_False by lia.
    - rewrite lookup_app_l by (rewrite length_alter; lia).
      rewrite (decide_True (P := S i < k + 1)) by lia.
      destruct (decide (n0 + i = currentTextFrame l)) as [E | E].
      + rewrite E, list_lookup_alter_eq.
        destruct (lookup_lt_is_Some_2 (frames d) (currentTextFrame l))
          as [fr ->]; [lia |].
        simpl. do 2 f_equal. lia.
      + rewrite list_lookup_alter_ne by done.
        rewrite Hlinks by lia. by rewrite decide_True by lia. }
  split.
  { intros i Hi.
    destruct (decide (i = k)) as [-> | Hik].
    - replace (startPage + k) with (S (currentPageIndex l)) by lia.
      rewrite Hpages', list_lookup_alter_eq, Hnewpage. simpl.
      eexists. split; [done |]. simpl. rewrite Hn.
      apply elem_of_app. right. by apply list_elem_of_singleton.
    - destruct (Hon i) as (pg & Hpg & Hin); [lia |].
      by apply (pages_extend_member d d' _ pg). }
  split; [by etransitivity |]. split; [by rewrite Hsty' | lia].
Qed.

Lemma processBlock_flow_invariant autoFlow sm block d0 startPage l d l' d' :
  flow_invariant d0 startPage l d ->
  processBlock autoFlow sm block l d = Returns l' d' ->
  flow_invariant d0 startPage l' d'.
Proof.
  intros Hinv. destruct block as [p | rows |]; simpl.
  - destruct (paragraphTextOf p) as [paragraphText|].
    + intros H. inv_bind H.
      pose proof (placeParagraph_locals _ _ _ _ _ _ _ Hm) as ->.
      eapply checkOverflow_flow_invariant; [| exact H].
      assert (currentTextFrame l < length (frames d)) as Hf.
      { destruct Hinv as (_ & _ & Hcur & _). lia. }
      pose proof (placeParagraph_styles _ _ _ _ _ _ _ Hm) as Hsty.
      apply placeParagraph_story in Hm as (Ht & _ & Hnext); [| done].
      by apply (flow_invariant_story_step d0 startPage l d).
    + intros H. by inv_ret H.
  - destruct (truthy (tableTextOf rows)); intros H.
    + inv_bind H. inv_ret H. unfold set_contents in Hm.
      destruct (contents_throws h d _ _); [discriminate |].
      injection Hm as <- <-.
      apply (flow_invariant_story_step d0 startPage l d); try done.
      * apply touches_update_story.
      * unfold update_story; simpl. rewrite list_lookup_alter_eq.
        by destruct (frames d !! currentTextFrame l).
    + by inv_ret H.
  - intros H. by inv_ret H.
Qed.

Lemma processBlocks_flow_invariant autoFlow sm blocks d0 startPage l d l' d' :
  flow_invariant d0 startPage l d ->
  processBlocks autoFlow sm blocks l d = Returns l' d' ->
  flow_invariant d0 startPage l' d'.
Proof.
  revert l d. induction blocks as [|block rest IH]; intros l d Hinv; simpl.
  - intros H. by inv_ret H.
  - intros H. inv_bind H. eapply IH; [| exact H].
    eapply processBlock_flow_invariant; [exact Hinv | exact Hm].
Qed.

Lemma layoutWordContent_flow_invariant options d s d' :
  layoutWordContent options d = Returns s d' ->
  exists l,
    s = summaryOf (default 0 (startPage options)) l
    /\ flow_invariant d (default 0 (startPage options)) l d'.
Proof.
  unfold layoutWordContent. intros H. inv_bind H. inv_bind H. inv_ret H.
  exists a0. split; [done |].
  eapply processBlocks_flow_invariant; [| exact Hm0].
  by apply initialLocals_flow_invariant.
Qed.

(** ** What a flow keeps, and what its summary counts *)

(** X1: a completed flow leaves every frame the document already had as it
    was (story, bounds and link), keeps every page with its geometry and
    with its former frames, and keeps every paragraph style: it only adds. *)
Theorem flow_only_adds options d s d' :
  layoutWordContent options d = Returns s d' ->
  (forall f, f < length (frames d) -> frames d' !! f = frames d !! f)
  /\ (forall i p,
         pages d !! i = Some p ->
         exists p', pages d' !! i = Some p'
                    /\ bounds p' = bounds p
                    /\ marginPreferences p' = marginPreferences p
                    /\ textFrames p `prefix_of` textFrames p')
  /\ paragraphStyles d `prefix_of` paragraphStyles d'.
Proof.
  intros H. apply layoutWordContent_flow_invariant in H
    as (l & _ & (_ & _ & _ & _ & _ & Hold & _ & _ & Hext & Hsty & _)).
  by repeat split.
Qed.

(** X2: the counters of the summary are exact: [framesCreated] is the number
    of frames the flow added to the document and [pagesCreated] the number of
    pages it added. *)
Theorem summary_counts_are_exact options d s d' :
  layoutWordContent options d = Returns s d' ->
  length (frames d') = length (frames d) + framesCreated s
  /\ length (pages d') = length (pages d) + sum_pagesCreated s.
Proof.
  intros H. apply layoutWordContent_flow_invariant in H
    as (l & -> & (_ & Hframes & _ & _ & Hpages & _)).
  by split.
Qed.

(** X3: the frames of a completed flow form one chain over consecutive
    pages: the i-th frame created lies on page startPage + i and its
    successor is the (i+1)-th; the last one has no successor. *)
Theorem chain_is_linked_over_consecutive_pages options d s d' i :
  layoutWordContent options d = Returns s d' ->
  i < framesCreated s ->
  nextTextFrame <$> frames d' !! (length (frames d) + i)
  = Some (if decide (S i < framesCreated s)
          then Some (length (frames d) + S i) else None)
  /\ exists page, pages d' !! (sum_startPage s + i) = Some page
                  /\ length (frames d) + i ∈ textFrames page.
Proof.
  intros H Hi. apply layoutWordContent_flow_invariant in H
    as (l & -> & (_ & _ & _ & _ & _ & _ & Hlinks & Hon & _)).
  simpl in *. split; [by apply Hlinks | by apply Hon].
Qed.

(** ** [ensurePage] *)

Lemma ensurePage_loop_exact fuel pageIndex created d created' d' :
  S pageIndex - length (pages d) <= fuel ->
  ensurePage_loop fuel pageIndex created d = Returns created' d' ->
  length (pages d') = max (length (pages d)) (S pageIndex).
Proof.
  revert created d. induction fuel as [|fuel IH]; intros created d Hfuel; simpl.
  - case_decide; [lia |]. intros [= <- <-]. lia.
  - case_decide as Hlen.
    + unfold bind, pages_add.
      destruct (pages_add_result h d) as [[b m]|]; [| discriminate].
      intros Hrec. apply IH in Hrec; simpl in *.
      * rewrite Hrec, length_app. simpl. lia.
      * rewrite length_app. simpl. lia.
    + intros [= <- <-]. lia.
Qed.

(** X4: [ensurePage] appends exactly the missing pages after the existing
    ones, adds their number to the counter, touches neither frames nor
    styles, and a second call for the same index adds nothing. *)
Theorem ensurePage_adds_the_missing_pages pageIndex created d created' d' :
  ensurePage pageIndex created d = Returns created' d' ->
  (exists new, pages d' = pages d ++ new
               /\ length new = S pageIndex - length (pages d)
               /\ created' = created + length new)
  /\ frames d' = frames d
  /\ paragraphStyles d' = paragraphStyles d
  /\ ensurePage pageIndex created' d' = Returns created' d'.
Proof.
  intros H.
  pose proof (ensurePage_loop_exact _ _ _ _ _ _ (Nat.le_refl _) H) as Hlen.
  apply ensurePage_spec in H as (Hlt & Hfr & Hst & new & Hpages & Hcr & _).
  split; [| split; [done | split; [done |]]].
  - exists new. rewrite Hpages, length_app in Hlen. repeat split; [done | lia | done].
  - by apply ensurePage_existing.
Qed.

(** ** Failures that abort the flow and failures that do not *)

Lemma total_ensurePage_loop fuel pageIndex created :
  (forall d, pages_add_result h d <> None) ->
  total (ensurePage_loop fuel pageIndex created).
Proof.
  intros Hadd. revert created.
  induction fuel as [|fuel IH]; intros created d; simpl.
  - case_decide; by eauto.
  - case_decide; [| by eauto].
    unfold bind, pages_add. specialize (Hadd d).
    destruct (pages_add_result h d) as [[b m]|]; [apply IH | done].
Qed.

Lemma total_getOrCreateTextFrame pageIndex created :
  (forall d, pages_add_result h d <> None) ->
  (forall d i b, textFrames_add_throws h d i b = false) ->
  total (getOrCreateTextFrame pageIndex created).
Proof.
  intros Hpage Hframe d. unfold getOrCreateTextFrame.
  destruct (total_ensurePage_loop (S pageIndex - length (pages d)) pageIndex
              created Hpage d) as (c1 & d1 & He).
  erewrite bind_eval by exact He.
  apply ensurePage_spec in He as (Hlt & _).
  destruct (lookup_lt_is_Some_2 _ _ Hlt) as [page Hp].
  erewrite bind_eval.
  2:{ unfold getPageContentBounds. rewrite Hp. reflexivity. }
  erewrite bind_eval.
  2:{ unfold textFrames_add. rewrite Hframe. reflexivity. }
  by eauto.
Qed.

Lemma total_processBlock autoFlow sm block l :
  (forall d, pages_add_result h d <> None) ->
  (forall d i b, textFrames_add_throws h d i b = false) ->
  (forall d f s, contents_throws h d f s = false) ->
  total (processBlock autoFlow sm block l).
Proof.
  intros Hpage Hframe Htext. destruct block as [p | rows |]; simpl.
  - destruct (paragraphTextOf p) as [paragraphText|]; [| apply total_ret].
    apply total_bind.
    + intros d.
      destruct (placeParagraph_outcome sm p paragraphText l d)
        as [[Hc _] | [_ H]]; [by rewrite Htext in Hc | done].
    + intros l1. unfold checkOverflow.
      apply total_bind.
      * destruct autoFlow; [by intros d; eexists _, _ | apply total_ret].
      * intros [|]; [| apply total_ret].
        apply total_bind; [by apply total_getOrCreateTextFrame |].
        intros r. apply total_bind; [by intros d; eexists _, _ |].
        intros []. apply total_ret.
  - destruct (truthy (tableTextOf rows)); [| apply total_ret].
    apply total_bind; [| intros []; apply total_ret].
    intros d. unfold set_contents. rewrite Htext. by eauto.
  - apply total_ret.
Qed.

(** X5: the flow completes whenever the host adds pages, adds frames and
    inserts text without raising: no failure of a style lookup, of a style
    creation, of a style assignment or of a character format aborts it. *)
Theorem flow_completes_despite_style_failures options d :
  (forall d1, pages_add_result h d1 <> None) ->
  (forall d1 i b, textFrames_add_throws h d1 i b = false) ->
  (forall d1 f s, contents_throws h d1 f s = false) ->
  exists s d', layoutWordContent options d = Returns s d'.
Proof.
  intros Hpage Hframe Htext. revert d.
  change (total (layoutWordContent options)).
  unfold layoutWordContent.
  apply total_bind.
  - unfold initialLocals. apply total_bind.
    + by apply total_getOrCreateTextFrame.
    + intros r. apply total_ret.
  - intros l0. apply total_bind; [| intros l; apply total_ret].
    revert l0.
    induction (default [] (content options)) as [|block rest IH];
      intros l0; simpl.
    + apply total_ret.
    + apply total_bind; [by apply total_processBlock | apply IH].
Qed.

(** ** The text placed by a flow *)

Lemma concat_empty_app (l1 l2 : list string) :
  String.concat "" (l1 ++ l2) = String.concat "" l1 +:+ String.concat "" l2.
Proof.
  induction l1 as [|x l1 IH]; [done |].
  rewrite <- app_comm_cons, !concat_empty_cons, IH. by rewrite append_assoc.
Qed.

Lemma chainText_S d n0 k :
  chainText d n0 (S k) = chainText d n0 k +:+ story_text d (n0 + k).
Proof.
  unfold chainText. rewrite seq_S, map_app, concat_empty_app. simpl.
  done.
Qed.

Lemma chainText_ext d d' n0 k :
  (forall f, n0 <= f < n0 + k -> story_of d' f = story_of d f) ->
  chainText d' n0 k = chainText d n0 k.
Proof.
  intros Hsame. unfold chainText. f_equal. apply map_ext_in.
  intros f [Hlo Hhi]%in_seq. unfold story_text. by rewrite Hsame.
Qed.

(** Appending [t] to the story of the last frame of the chain. *)
Lemma chainText_append_last d d' n0 k t :
  (forall f, f <> n0 + k -> story_of d' f = story_of d f) ->
  story_text d' (n0 + k) = story_text d (n0 + k) +:+ t ->
  chainText d' n0 (S k) = chainText d n0 (S k) +:+ t.
Proof.
  intros Hother Hlast. rewrite !chainText_S, Hlast, append_assoc.
  f_equal. apply chainText_ext. intros f Hf. apply Hother. lia.
Qed.

Lemma checkOverflow_chainText autoFlow d0 startPage l d l' d' :
  flow_invariant d0 startPage l d ->
  checkOverflow autoFlow l d = Returns l' d' ->
  chainText d' (length (frames d0)) (length (linkedFrames l'))
  = chainText d (length (frames d0)) (length (linkedFrames l)).
Proof.
  intros Hinv H.
  destruct (checkOverflow_cases _ _ _ _ _ H)
    as [(-> & -> & _) | (-> & Hov & _)]; [done |].
  destruct Hinv as (_ & Hlen & Hcur & _).
  assert (currentTextFrame l < length (frames d)) as Hf by lia.
  pose proof (checkOverflow_frames _ _ _ _ _ Hf H) as (_ & _ & _ & Hst).
  apply checkOverflow_advance in H
    as (new & page & -> & _ & _ & Hframes' & _); [| done | done].
  simpl. rewrite length_app. simpl. rewrite Nat.add_1_r, chainText_S.
  assert (story_text d' (length (frames d0) + length (linkedFrames l))
          = ""%string) as ->.
  { unfold story_text, story_of. rewrite Hframes', <- Hlen.
    rewrite lookup_app_r by by rewrite length_alter.
    rewrite length_alter.
    by replace (length (frames d) - length (frames d)) with 0 by lia. }
  rewrite append_nil_r. apply chainText_ext. intros f Hrange. apply Hst. lia.
Qed.

Lemma processBlock_chainText autoFlow sm block d0 startPage l d l' d' :
  flow_invariant d0 startPage l d ->
  processBlock autoFlow sm block l d = Returns l' d' ->
  chainText d' (length (frames d0)) (length (linkedFrames l'))
  = chainText d (length (frames d0)) (length (linkedFrames l))
    +:+ blockText block.
Proof.
  intros Hinv.
  pose proof Hinv as (_ & Hlen & Hcur & _ & _ & _ & _ & _ & _ & _ & Hk).
  destruct (length (linkedFrames l)) as [|k] eqn:Ek; [lia |].
  assert (currentTextFrame l = length (frames d0) + k) as Hc by lia.
  destruct block as [p | rows |]; simpl.
  - destruct (paragraphTextOf p) as [paragraphText|]; simpl.
    + intros H. inv_bind H.
      pose proof (placeParagraph_locals _ _ _ _ _ _ _ Hm) as ->.
      pose proof (processBlock_flow_invariant autoFlow sm
                    (ParagraphBlock p) d0 startPage l d) as Hstep.
      assert (flow_invariant d0 startPage
                (mkLocals (currentPageIndex l) (pagesCreated l)
                   (S (paragraphsPlaced l)) (currentTextFrame l)
                   (linkedFrames l)) d1) as Hinv1.
      { pose proof (placeParagraph_styles _ _ _ _ _ _ _ Hm) as Hsty.
        apply placeParagraph_story in Hm as (Ht & _ & Hnext); [| lia].
        by apply (flow_invariant_story_step d0 startPage l d). }
      rewrite (checkOverflow_chainText _ _ _ _ _ _ _ Hinv1 H). simpl.
      rewrite Ek.
      apply placeParagraph_story in Hm as (Ht & Hcontents & _); [| lia].
      apply chainText_append_last.
      * intros f Hf. apply (story_of_touches _ _ _ _ Ht). lia.
      * unfold story_text. rewrite <- Hc, Hcontents, string_of_list_ascii_app.
        by rewrite string_of_list_ascii_of_string.
    + intros H. inv_ret H. by rewrite append_nil_r, Ek.
  - destruct (truthy (tableTextOf rows)) eqn:Htr; intros H.
    + inv_bind H. inv_ret H. simpl. rewrite Ek. unfold set_contents in Hm.
      destruct (contents_throws h d _ _); [discriminate |].
      injection Hm as <- <-. apply chainText_append_last.
      * intros f Hf. apply story_of_update_story_ne. lia.
      * unfold story_text. rewrite <- Hc.
        rewrite story_of_update_story_eq by lia.
        rewrite map_app, string_of_list_ascii_app, map_map. simpl.
        by rewrite map_id, string_of_list_ascii_of_string.
    + inv_ret H. apply truthy_false in Htr. by rewrite Htr, append_nil_r, Ek.
  - intros H. inv_ret H. by rewrite append_nil_r, Ek.
Qed.

Lemma processBlocks_chainText autoFlow sm blocks d0 startPage l d l' d' :
  flow_invariant d0 startPage l d ->
  processBlocks autoFlow sm blocks l d = Returns l' d' ->
  chainText d' (length (frames d0)) (length (linkedFrames l'))
  = chainText d (length (frames d0)) (length (linkedFrames l))
    +:+ String.concat "" (map blockText blocks).
Proof.
  revert l d. induction blocks as [|block rest IH]; intros l d Hinv H.
  - simpl in H. inv_ret H. simpl. by rewrite append_nil_r.
  - simpl in H. inv_bind H.
    pose proof (processBlock_flow_invariant _ _ _ _ _ _ _ _ _ Hinv Hm) as Hinv1.
    rewrite (IH _ _ Hinv1 H).
    rewrite (processBlock_chainText _ _ _ _ _ _ _ _ _ Hinv Hm).
    cbn [map]. by rewrite concat_empty_cons, append_assoc.
Qed.

Lemma processBlocks_chainText_total options d s d' :
  layoutWordContent options d = Returns s d' ->
  chainText d' (length (frames d)) (framesCreated s)
  = String.concat "" (map blockText (default [] (content options))).
Proof.
  unfold layoutWordContent. intros H. inv_bind H. inv_bind H. inv_ret H.
  simpl.
  pose proof (initialLocals_flow_invariant _ _ _ _ Hm) as Hinv.
  rewrite (processBlocks_chainText _ _ _ _ _ _ _ _ _ Hinv Hm0).
  unfold initialLocals in Hm. inv_bind Hm. inv_ret Hm. simpl.
  destruct a1 as [f created].
  apply getOrCreateTextFrame_spec in Hm1
    as (new & page & -> & _ & _ & _ & Hframes & _).
  unfold chainText. simpl. unfold story_text, story_of.
  by rewrite Hframes, lookup_length_snoc.
Qed.

(** X6: a completed flow places the text of every block, in the order of the
    blocks, and nothing else: the stories of the frames it created, read in
    the order of the chain, concatenate to the texts of the blocks (a
    paragraph's runs followed by "\r", a table's flattened text). *)
Theorem flow_places_the_text_in_order options d s d' :
  layoutWordContent options d = Returns s d' ->
  chainText d' (length (frames d)) (framesCreated s)
  = String.concat "" (map blockText (default [] (content options))).
Proof. apply processBlocks_chainText_total. Qed.

(** ** How many frames a flow creates *)

Lemma processBlock_chain_growth autoFlow sm block l d l' d' :
  processBlock autoFlow sm block l d = Returns l' d' ->
  length (linkedFrames l')
  <= length (linkedFrames l) + (if isPlacedParagraph block then 1 else 0).
Proof.
  destruct block as [p | rows |]; simpl.
  - destruct (paragraphTextOf p) as [paragraphText|].
    + intros H. inv_bind H. apply placeParagraph_locals in Hm as ->.
      apply checkOverflow_cases in H
        as [(-> & _ & _) | (_ & _ & nf & c & d1 & _ & _ & ->)]; simpl;
        [lia | rewrite length_app; simpl; lia].
    + intros H. inv_ret H. lia.
  - destruct (truthy (tableTextOf rows)); intros H.
    + inv_bind H. inv_ret H. simpl. lia.
    + inv_ret H. lia.
  - intros H. inv_ret H. lia.
Qed.

Lemma processBlocks_chain_growth autoFlow sm blocks l d l' d' :
  processBlocks autoFlow sm blocks l d = Returns l' d' ->
  length (linkedFrames l')
  <= length (linkedFrames l) + length (List.filter isPlacedParagraph blocks).
Proof.
  revert l d. induction blocks as [|block rest IH]; intros l d; simpl.
  - intros H. inv_ret H. lia.
  - intros H. inv_bind H. apply processBlock_chain_growth in Hm.
    apply IH in H. destruct (isPlacedParagraph block); simpl; lia.
Qed.

(** X7: a flow creates at most one frame more than it places paragraphs:
    only a placed paragraph can be followed by a new frame; tables, skipped
    paragraphs and unknown blocks never are. *)
Theorem frames_bounded_by_placed_paragraphs options d s d' :
  layoutWordContent options d = Returns s d' ->
  framesCreated s
  <= 1 + length (List.filter isPlacedParagraph (default [] (content options)))
  /\ endPage s
     <= sum_startPage s
        + length (List.filter isPlacedParagraph (default [] (content options))).
Proof.
  intros H.
  unfold layoutWordContent in H. inv_bind H. inv_bind H. inv_ret H.
  pose proof (initialLocals_flow_invariant _ _ _ _ Hm) as Hinv.
  apply (processBlocks_flow_invariant _ _ _ _ _ _ _ _ _ Hinv) in Hm0 as Hinv'.
  destruct Hinv' as (_ & _ & _ & Hpage & _).
  apply processBlocks_chain_growth in Hm0.
  unfold initialLocals in Hm. inv_bind Hm. inv_ret Hm. simpl in *. lia.
Qed.

Lemma processBlock_no_advance autoFlow sm block l d l' d' :
  autoFlow = false \/ (forall d1 f, frame_overflows h d1 f = false) ->
  processBlock autoFlow sm block l d = Returns l' d' ->
  linkedFrames l' = linkedFrames l
  /\ pagesCreated l' = pagesCreated l
  /\ currentPageIndex l' = currentPageIndex l.
Proof.
  intros Hno. destruct block as [p | rows |]; simpl.
  - destruct (paragraphTextOf p) as [paragraphText|].
    + intros H. inv_bind H. apply placeParagraph_locals in Hm as ->.
      apply checkOverflow_cases in H
        as [(-> & _ & _) | (Hauto & Hov & _)]; [done |].
      simpl in Hov. destruct Hno as [-> | Hno]; [done |].
      by rewrite Hno in Hov.
    + intros H. by inv_ret H.
  - destruct (truthy (tableTextOf rows)); intros H.
    + inv_bind H. by inv_ret H.
    + by inv_ret H.
  - intros H. by inv_ret H.
Qed.

Lemma processBlocks_no_advance autoFlow sm blocks l d l' d' :
  autoFlow = false \/ (forall d1 f, frame_overflows h d1 f = false) ->
  processBlocks autoFlow sm blocks l d = Returns l' d' ->
  linkedFrames l' = linkedFrames l
  /\ pagesCreated l' = pagesCreated l
  /\ currentPageIndex l' = currentPageIndex l.
Proof.
  intros Hno. revert l d.
  induction blocks as [|block rest IH]; intros l d; simpl.
  - intros H. by inv_ret H.
  - intros H. inv_bind H.
    apply (processBlock_no_advance _ _ _ _ _ _ _ Hno) in Hm as (E1 & E2 & E3).
    apply IH in H as (F1 & F2 & F3). repeat split; congruence.
Qed.

Lemma getOrCreateTextFrame_created pageIndex created d f created' d' :
  getOrCreateTextFrame pageIndex created d = Returns (f, created') d' ->
  created' = created + (S pageIndex - length (pages d)).
Proof.
  unfold getOrCreateTextFrame. intros H. inv_bind H.
  pose proof (ensurePage_loop_exact _ _ _ _ _ _ (Nat.le_refl _) Hm) as Hlen.
  apply ensurePage_spec in Hm as (_ & _ & _ & new & Hpages & -> & _).
  do 2 inv_bind H. inv_ret H.
  rewrite Hpages, length_app in Hlen. lia.
Qed.

(** X8: with auto-flow off, or when no frame ever reports overflow, the flow
    stays in its first frame: one frame is created, on the start page, the
    pages created are exactly those missing up to the start page, and the
    story of that frame is the text of all blocks in order. *)
Theorem single_frame_without_overflow options d s d' :
  autoFlow options = Some false
  \/ (forall d1 f, frame_overflows h d1 f = false) ->
  layoutWordContent options d = Returns s d' ->
  framesCreated s = 1
  /\ endPage s = sum_startPage s
  /\ sum_pagesCreated s = S (sum_startPage s) - length (pages d)
  /\ story_text d' (length (frames d))
     = String.concat "" (map blockText (default [] (content options))).
Proof.
  intros Hno H.
  assert (default true (autoFlow options) = false
          \/ (forall d1 f, frame_overflows h d1 f = false)) as Hno'.
  { destruct Hno as [-> | Hno]; by auto. }
  pose proof H as Hrun.
  unfold layoutWordContent in H. inv_bind H. inv_bind H. inv_ret H.
  apply (processBlocks_no_advance _ _ _ _ _ _ _ Hno') in Hm0
    as (E1 & E2 & E3).
  unfold initialLocals in Hm. inv_bind Hm. inv_ret Hm.
  destruct a1 as [f created].
  apply getOrCreateTextFrame_created in Hm0 as ->.
  simpl in *. rewrite E1, E2, E3. simpl.
  split; [done |]. split; [done |]. split; [lia |].
  pose proof (processBlocks_chainText_total _ _ _ _ Hrun) as Htext.
  simpl in Htext. rewrite E1 in Htext. unfold chainText in Htext.
  simpl in Htext. exact Htext.
Qed.

(** ** The run formatter *)

(** X9: the run formatter is best effort: whatever the host raises, it
    returns, and it changes no text: pages, styles of the document, the
    number of frames, every other frame, the text of the formatted story and
    its link are as before. *)
Theorem run_formatting_never_aborts_or_edits_text f rs charIndex d :
  exists d',
    formatRuns f rs charIndex d = Returns tt d'
    /\ pages d' = pages d
    /\ paragraphStyles d' = paragraphStyles d
    /\ length (frames d') = length (frames d)
    /\ (forall f', f' <> f -> frames d' !! f' = frames d !! f')
    /\ story_text d' f = story_text d f
    /\ nextTextFrame <$> frames d' !! f = nextTextFrame <$> frames d !! f.
Proof.
  destruct (total_formatRuns f rs charIndex d) as ([] & d' & Hrun).
  exists d'. split; [done |].
  pose proof (keeps_Returns _ _ _ _ _ (keeps_formatRuns f rs charIndex) Hrun)
    as ((Hp & Hl & Ho) & Hc & Hn).
  assert (paragraphStyles d' = paragraphStyles d) as Hs.
  { revert Hrun.
    apply (keeps_Returns (fun d d' => paragraphStyles d' = paragraphStyles d)).
    apply story_keeps_formatRuns; [| done].
    split; [by intros ? | intros ? ? ?; congruence]. }
  unfold story_text. by rewrite Hc.
Qed.

Lemma story_of_valid d f c :
  c < length (story_of d f) -> f < length (frames d).
Proof.
  unfold story_of. intros Hc.
  destruct (frames d !! f) as [fr|] eqn:Hf; [| simpl in Hc; lia].
  by apply lookup_lt_Some in Hf.
Qed.

Lemma update_char_story f c g d :
  f < length (frames d) ->
  story_of (update_char f c g d) f = alter g c (story_of d f).
Proof. intros Hf. unfold update_char. by rewrite story_of_update_story_eq. Qed.

(** One character, formatted by a host that accepts every assignment. *)
Lemma formatCharacter_accepted f c fmt d :
  (forall ch v, fontStyle_throws h ch v = false) ->
  (forall ch, underline_throws h ch = false) ->
  c < length (story_of d f) ->
  exists d',
    formatCharacter f c fmt d = Returns tt d'
    /\ length (frames d') = length (frames d)
    /\ story_of d' f = alter (formatted fmt) c (story_of d f).
Proof.
  intros Hfont Hunder Hc.
  pose proof (story_of_valid _ _ _ Hc) as Hf.
  assert (forall v d1,
             length (frames d1) = length (frames d) ->
             length (story_of d1 f) = length (story_of d f) ->
             exists d2,
               set_fontStyle f c v d1 = Returns tt d2
               /\ length (frames d2) = length (frames d)
               /\ story_of d2 f
                  = alter (fun ch => mkCharacter (contents ch) v
                                       (char_underline ch)
                                       (appliedParagraphStyle ch)) c
                      (story_of d1 f)) as Hset.
  { intros v d1 Hl1 Hs1. unfold set_fontStyle.
    destruct (lookup_lt_is_Some_2 (story_of d1 f) c) as [ch ->]; [lia |].
    rewrite Hfont. eexists. split; [done |].
    split; [unfold update_char; by rewrite length_frames_update_story |].
    apply update_char_story. lia. }
  assert (forall d1,
             length (frames d1) = length (frames d) ->
             length (story_of d1 f) = length (story_of d f) ->
             exists d2,
               set_underline f c d1 = Returns tt d2
               /\ length (frames d2) = length (frames d)
               /\ story_of d2 f
                  = alter (fun ch => mkCharacter (contents ch) (fontStyle ch)
                                       true (appliedParagraphStyle ch)) c
                      (story_of d1 f)) as Hul.
  { intros d1 Hl1 Hs1. unfold set_underline.
    destruct (lookup_lt_is_Some_2 (story_of d1 f) c) as [ch ->]; [lia |].
    rewrite Hunder. eexists. split; [done |].
    split; [unfold update_char; by rewrite length_frames_update_story |].
    apply update_char_story. lia. }
  unfold formatCharacter.
  (* bold *)
  assert (exists d1,
             (if bold fmt then set_fontStyle f c "Bold" else ret tt) d
             = Returns tt d1
             /\ length (frames d1) = length (frames d)
             /\ story_of d1 f
                = alter (fun ch => mkCharacter (contents ch)
                                     (if bold fmt then "Bold"%string
                                      else fontStyle ch)
                                     (char_underline ch)
                                     (appliedParagraphStyle ch)) c
                    (story_of d f)) as (d1 & Hrun1 & Hl1 & Hs1).
  { destruct (bold fmt).
    - by apply Hset.
    - exists d. repeat split. symmetry. apply list_alter_id. by intros []. }
  erewrite bind_eval by exact Hrun1.
  assert (length (story_of d1 f) = length (story_of d f)) as Hlen1
    by (by rewrite Hs1, length_alter).
  (* italic *)
  assert (exists d2,
             (if italic fmt
              then set_fontStyle f c (if bold fmt then "Bold Italic"
                                      else "Italic")
              else ret tt) d1 = Returns tt d2
             /\ length (frames d2) = length (frames d)
             /\ story_of d2 f
                = alter (fun ch => mkCharacter (contents ch)
                                     (if italic fmt
                                      then (if bold fmt
                                            then "Bold Italic"%string
                                            else "Italic"%string)
                                      else fontStyle ch)
                                     (char_underline ch)
                                     (appliedParagraphStyle ch)) c
                    (story_of d1 f)) as (d2 & Hrun2 & Hl2 & Hs2).
  { destruct (italic fmt).
    - by apply Hset.
    - exists d1. repeat split; [done |]. symmetry. apply list_alter_id.
      by intros []. }
  erewrite bind_eval by exact Hrun2.
  assert (length (story_of d2 f) = length (story_of d f)) as Hlen2
    by (by rewrite Hs2, length_alter).
  (* underline *)
  assert (exists d3,
             (if underline fmt then set_underline f c else ret tt) d2
             = Returns tt d3
             /\ length (frames d3) = length (frames d)
             /\ story_of d3 f
                = alter (fun ch => mkCharacter (contents ch) (fontStyle ch)
                                     (if underline fmt then true
                                      else char_underline ch)
                                     (appliedParagraphStyle ch)) c
                    (story_of d2 f)) as (d3 & Hrun3 & Hl3 & Hs3).
  { destruct (underline fmt).
    - by apply Hul.
    - exists d2. repeat split; [done |]. symmetry. apply list_alter_id.
      by intros []. }
  exists d3. split; [exact Hrun3 |]. split; [done |].
  rewrite Hs3, Hs2, Hs1, !list_alter_alter_eq.
  apply list_alter_ext; [| done]. intros ch _. unfold formatted. simpl.
  by destruct (italic fmt), (bold fmt).
Qed.

(** X10: with a host that accepts every character assignment, the loop over
    the characters of a run formats exactly the characters of the story at
    the indices from [c] up to [c + n], clamped to the length of the story:
    each gets the font style "Bold", "Italic" or "Bold Italic" its flags ask
    for and the underline if asked; all other characters stay as they are. *)
Theorem run_formatter_formats_the_clamped_range f fmt c n d :
  (forall ch v, fontStyle_throws h ch v = false) ->
  (forall ch, underline_throws h ch = false) ->
  exists d',
    formatCharacters f fmt c n d = Returns tt d'
    /\ length (story_of d' f) = length (story_of d f)
    /\ forall i,
         story_of d' f !! i
         = (if decide (c <= i < c + n) then formatted fmt else id)
             <$> story_of d f !! i.
Proof.
  intros Hfont Hunder. revert c d.
  induction n as [|n IH]; intros c d; simpl.
  - exists d. repeat split. intros i.
    rewrite decide_False by lia. by destruct (story_of d f !! i).
  - unfold bind at 1, characters_length.
    destruct (c <? length (story_of d f)) eqn:Hc.
    + apply Nat.ltb_lt in Hc.
      destruct (formatCharacter_accepted f c fmt d Hfont Hunder Hc)
        as (d1 & Hrun1 & Hl1 & Hs1).
      erewrite bind_eval by exact Hrun1.
      destruct (IH (S c) d1) as (d' & Hrun & Hlen & Hstory).
      exists d'. split; [exact Hrun |].
      split; [by rewrite Hlen, Hs1, length_alter |].
      intros i. rewrite Hstory, Hs1.
      destruct (decide (i = c)) as [-> | Hne].
      * rewrite list_lookup_alter_eq, decide_False, decide_True by lia.
        by destruct (story_of d f !! c).
      * rewrite list_lookup_alter_ne by done.
        destruct (decide (S c <= i < S c + n));
          [by rewrite decide_True by lia | by rewrite decide_False by lia].
    + apply Nat.ltb_ge in Hc. exists d. repeat split. intros i.
      destruct (decide (c <= i < c + S n)) as [Hin | Hout].
      * by rewrite lookup_ge_None_2 by lia.
      * by destruct (story_of d f !! i).
Qed.

(** * Properties of the text frame commands *)

(** ** Identifiers and the two searches *)

Lemma findInPage_Some frameId fs f :
  findInPage frameId fs = Some f -> f ∈ fs /\ frameIdOf f = frameId.
Proof.
  induction fs as [|g fs IH]; simpl; [done |].
  destruct (String.eqb (frameIdOf g) frameId) eqn:Heq.
  - intros [= <-]. apply String.eqb_eq in Heq. split; [left | done].
  - intros [Hin Hid]%IH. split; [by right | done].
Qed.

Lemma findInPage_None frameId fs :
  findInPage frameId fs = None ->
  forall f, f ∈ fs -> frameIdOf f <> frameId.
Proof.
  induction fs as [|g fs IH]; simpl; [by intros _ f ?%elem_of_nil |].
  destruct (String.eqb (frameIdOf g) frameId) eqn:Heq; [done |].
  intros Hnone f [-> | Hin]%elem_of_cons.
  - by apply String.eqb_neq.
  - by apply IH.
Qed.

Lemma findFrame_Some frameId ps f :
  findFrame frameId ps = Some f ->
  frameIdOf f = frameId /\ exists page, page ∈ ps /\ f ∈ textFrames page.
Proof.
  induction ps as [|page ps IH]; simpl; [done |].
  destruct (findInPage frameId (textFrames page)) as [g|] eqn:Hpage.
  - intros [= <-]. apply findInPage_Some in Hpage as [Hin Hid].
    split; [done |]. exists page. split; [left | done].
  - intros [Hid (pg & Hpg & Hin)]%IH. split; [done |].
    exists pg. split; [by right | done].
Qed.

Lemma findFrame_None frameId ps :
  findFrame frameId ps = None ->
  forall page f, page ∈ ps -> f ∈ textFrames page -> frameIdOf f <> frameId.
Proof.
  induction ps as [|page ps IH]; simpl;
    [by intros _ pg f ?%elem_of_nil |].
  destruct (findInPage frameId (textFrames page)) as [g|] eqn:Hpage; [done |].
  intros Hnone pg f [-> | Hpg]%elem_of_cons Hin.
  - by apply (findInPage_None _ _ Hpage).
  - by apply (IH Hnone pg).
Qed.

(** A frame listed by a page is found by its identifier. *)
Lemma findFrame_on_page ps page f :
  page ∈ ps -> f ∈ textFrames page -> findFrame (frameIdOf f) ps = Some f.
Proof.
  intros Hpage Hin.
  destruct (findFrame (frameIdOf f) ps) as [g|] eqn:Hfind.
  - apply findFrame_Some in Hfind as [Hid _].
    apply (inj pretty) in Hid. by subst.
  - by destruct (findFrame_None _ _ Hfind page f).
Qed.

Lemma scanFrames_page sourceFrameId targetFrameId fs acc :
  fold_left
    (fun acc frame =>
       (if String.eqb (frameIdOf frame) sourceFrameId
        then Some frame else acc.1,
        if String.eqb (frameIdOf frame) targetFrameId
        then Some frame else acc.2)) fs acc
  = (match findInPage sourceFrameId fs with
     | Some f => Some f
     | None => acc.1
     end,
     match findInPage targetFrameId fs with
     | Some f => Some f
     | None => acc.2
     end).
Proof.
  revert acc. induction fs as [|g fs IH]; intros [a b]; simpl; [done |].
  rewrite IH. simpl. f_equal.
  - destruct (String.eqb (frameIdOf g) sourceFrameId) eqn:Heq; [| done].
    destruct (findInPage sourceFrameId fs) as [f|] eqn:Hf; [| done].
    apply findInPage_Some in Hf as [_ Hid]. apply String.eqb_eq in Heq.
    rewrite <- Heq in Hid. apply (inj pretty) in Hid. by subst.
  - destruct (String.eqb (frameIdOf g) targetFrameId) eqn:Heq; [| done].
    destruct (findInPage targetFrameId fs) as [f|] eqn:Hf; [| done].
    apply findInPage_Some in Hf as [_ Hid]. apply String.eqb_eq in Heq.
    rewrite <- Heq in Hid. apply (inj pretty) in Hid. by subst.
Qed.

Lemma scanFrames_fold sourceFrameId targetFrameId ps acc :
  fold_left
    (fun acc page =>
       fold_left
         (fun acc frame =>
            (if String.eqb (frameIdOf frame) sourceFrameId
             then Some frame else acc.1,
             if String.eqb (frameIdOf frame) targetFrameId
             then Some frame else acc.2))
         (textFrames page) acc) ps acc
  = (match findFrame sourceFrameId ps with
     | Some f => Some f
     | None => acc.1
     end,
     match findFrame targetFrameId ps with
     | Some f => Some f
     | None => acc.2
     end).
Proof.
  revert acc. induction ps as [|page ps IH]; intros [a b]; [done |].
  cbn [fold_left findFrame]. rewrite scanFrames_page, IH. simpl. f_equal.
  - destruct (findInPage sourceFrameId (textFrames page)) as [g|] eqn:Hg;
      [| done].
    destruct (findFrame sourceFrameId ps) as [f|] eqn:Hf; [| done].
    apply findInPage_Some in Hg as [_ Hg]. apply findFrame_Some in Hf as [Hf _].
    rewrite <- Hf in Hg. apply (inj pretty) in Hg. by subst.
  - destruct (findInPage targetFrameId (textFrames page)) as [g|] eqn:Hg;
      [| done].
    destruct (findFrame targetFrameId ps) as [f|] eqn:Hf; [| done].
    apply findInPage_Some in Hg as [_ Hg]. apply findFrame_Some in Hf as [Hf _].
    rewrite <- Hf in Hg. apply (inj pretty) in Hg. by subst.
Qed.

Lemma scanFrames_findFrame sourceFrameId targetFrameId ps :
  scanFrames sourceFrameId targetFrameId ps
  = (findFrame sourceFrameId ps, findFrame targetFrameId ps).
Proof.
  unfold scanFrames. rewrite scanFrames_fold. simpl.
  by destruct (findFrame sourceFrameId ps), (findFrame targetFrameId ps).
Qed.

(** ** [createTextFrame] *)

Lemma createTextFrame_Returns options d r d' :
  createTextFrame options d = Returns r d' ->
  ctf_pageIndex options < length (pages d)
  /\ r = mkCreateTextFrameResult (frameIdOf (length (frames d)))
           (mkContentBounds (ctf_x options) (ctf_y options)
              (ctf_width options) (ctf_height options))
           (ctf_pageIndex options)
  /\ frames d'
     = frames d
       ++ [mkTextFrame
             (mkBounds (ctf_y options) (ctf_x options)
                (nadd (ctf_y options) (ctf_height options))
                (nadd (ctf_x options) (ctf_width options)))
             (map plain
                (list_ascii_of_string
                   (default ""%string (ctf_content options))))
             None]
  /\ pages d'
     = alter (fun p => mkPage (bounds p) (marginPreferences p)
                         (textFrames p ++ [length (frames d)]))
         (ctf_pageIndex options) (pages d)
  /\ paragraphStyles d' = paragraphStyles d.
Proof.
  unfold createTextFrame. case_decide as Hrange; [done |]. intros H.
  split; [lia |].
  inv_bind H. unfold textFrames_add in Hm.
  destruct (textFrames_add_throws h d _ _); [discriminate |].
  injection Hm as <- <-. inv_bind H. inv_ret H.
  split; [done |].
  destruct (ctf_content options) as [c|]; simpl in Hm.
  - destruct (truthy c) eqn:Hc.
    + unfold set_frame_contents in Hm.
      destruct (frame_contents_throws fh _ _ c); [discriminate |].
      injection Hm as <- <-. unfold update_story. simpl.
      by rewrite alter_app_r_alt, Nat.sub_diag by lia.
    + inv_ret Hm. apply truthy_false in Hc. by subst.
  - by inv_ret Hm.
Qed.

(** X11: [createTextFrame] raises without touching the document when the
    page index is out of range; when it returns, the document has exactly
    one frame more, listed last on that page, with the bounds
    [y, x, y + height, x + width], the given content as its text and no
    successor, and the result carries the identifier of that frame. *)
Theorem createTextFrame_adds_one_frame options d :
  (length (pages d) <= ctf_pageIndex options ->
   createTextFrame options d = Throws d)
  /\ forall r d',
       createTextFrame options d = Returns r d' ->
       ctf_pageIndex options < length (pages d)
       /\ r = mkCreateTextFrameResult (frameIdOf (length (frames d)))
                (mkContentBounds (ctf_x options) (ctf_y options)
                   (ctf_width options) (ctf_height options))
                (ctf_pageIndex options)
       /\ frames d'
          = frames d
            ++ [mkTextFrame
                  (mkBounds (ctf_y options) (ctf_x options)
                     (nadd (ctf_y options) (ctf_height options))
                     (nadd (ctf_x options) (ctf_width options)))
                  (map plain
                     (list_ascii_of_string
                        (default ""%string (ctf_content options))))
                  None]
       /\ pages d'
          = alter (fun p => mkPage (bounds p) (marginPreferences p)
                              (textFrames p ++ [length (frames d)]))
              (ctf_pageIndex options) (pages d)
       /\ paragraphStyles d' = paragraphStyles d.
Proof.
  split.
  - intros Hrange. unfold createTextFrame. by rewrite decide_True.
  - intros r d'. apply createTextFrame_Returns.
Qed.

(** X12: when [createTextFrame] raises, either the document is as it was,
    or only the assignment of the content failed and the new frame is left
    behind, empty, on its page. *)
Theorem createTextFrame_failure_leaves_at_most_an_empty_frame options d d' :
  createTextFrame options d = Throws d' ->
  d' = d
  \/ (exists c,
         truthy_opt (ctf_content options) = Some c
         /\ frames d'
            = frames d
              ++ [mkTextFrame
                    (mkBounds (ctf_y options) (ctf_x options)
                       (nadd (ctf_y options) (ctf_height options))
                       (nadd (ctf_x options) (ctf_width options)))
                    [] None]
         /\ pages d'
            = alter (fun p => mkPage (bounds p) (marginPreferences p)
                                (textFrames p ++ [length (frames d)]))
                (ctf_pageIndex options) (pages d)
         /\ paragraphStyles d' = paragraphStyles d).
Proof.
  unfold createTextFrame. case_decide as Hrange; [intros [= <-]; by left |].
  unfold bind at 1, textFrames_add.
  destruct (textFrames_add_throws h d _ _); [intros [= <-]; by left |].
  unfold bind.
  destruct (truthy_opt (ctf_content options)) as [c|]; [| done].
  unfold set_frame_contents.
  destruct (frame_contents_throws fh _ _ c); [| done].
  intros [= <-]. right. exists c. by repeat split.
Qed.

(** ** [insertText] *)

Lemma total_applyStyleToLastParagraph f name :
  total (applyStyleToLastParagraph f name).
Proof. apply total_try_catch, total_ret. Qed.

Lemma keeps_applyStyleToLastParagraph f name :
  keeps (restyles f) (applyStyleToLastParagraph f name).
Proof.
  unfold applyStyleToLastParagraph.
  apply keeps_try_catch; [apply _ | | apply keeps_ret; apply _].
  apply keeps_bind; [apply _ | apply keeps_ret; apply _ |]. intros sty.
  apply keeps_bind; [apply _ | by intros d |]. intros [|];
    [| apply keeps_ret; apply _].
  apply keeps_bind; [apply _ | by intros d |]. intros len.
  destruct (0 <? len); [| apply keeps_ret; apply _].
  apply keeps_set_last_appliedParagraphStyle.
Qed.

Lemma applyStyleToLastParagraph_styles f name d d' :
  applyStyleToLastParagraph f name d = Returns tt d' ->
  paragraphStyles d' = paragraphStyles d.
Proof.
  apply (keeps_Returns (fun d d' => paragraphStyles d' = paragraphStyles d)).
  unfold applyStyleToLastParagraph.
  assert (PreOrder (fun d0 d1 : Document =>
                      paragraphStyles d1 = paragraphStyles d0)) as HR.
  { split; [by intros ? | intros ? ? ?; congruence]. }
  apply keeps_try_catch; [done | | by apply keeps_ret].
  apply keeps_bind; [done | by apply keeps_ret |]. intros sty.
  apply keeps_bind; [done | by intros d0 |]. intros [|];
    [| by apply keeps_ret].
  apply keeps_bind; [done | by intros d0 |]. intros len.
  destruct (0 <? len); [| by apply keeps_ret].
  by apply story_keeps_set_last_appliedParagraphStyle.
Qed.

(** X13: when [insertText] returns, the frame with the given identifier has
    the text put before its story (START), after it (END, also when no
    position is given) or in place of it (REPLACE); every other frame, the
    pages and the styles of the document are as before, whether or not a
    style was asked for; the result reports the length of the text. *)
Theorem insertText_places_text_by_position options d r d' :
  pages_wf d ->
  insertText options d = Returns r d' ->
  exists f,
    findFrame (it_frameId options) (pages d) = Some f
    /\ frameIdOf f = it_frameId options
    /\ r = mkInsertTextResult true (it_frameId options)
             (String.length (it_text options)) (positionOf options)
    /\ story_text d' f
       = (if String.eqb (positionOf options) "START"
          then it_text options +:+ story_text d f
          else if String.eqb (positionOf options) "END"
          then story_text d f +:+ it_text options
          else it_text options)
    /\ (String.eqb (positionOf options) "START"
        || String.eqb (positionOf options) "END"
        || String.eqb (positionOf options) "REPLACE") = true
    /\ (forall f', f' <> f -> frames d' !! f' = frames d !! f')
    /\ pages d' = pages d
    /\ paragraphStyles d' = paragraphStyles d.
Proof.
  intros Hwf. unfold insertText. fold (positionOf options).
  destruct (findFrame (it_frameId options) (pages d)) as [f|] eqn:Hfind;
    [| done].
  intros H. exists f.
  pose proof (findFrame_Some _ _ _ Hfind) as (Hid & page & Hpage & Hin).
  pose proof (Hwf page f Hpage Hin) as Hf.
  split; [done |]. split; [done |].
  inv_bind H. inv_bind H. inv_ret H. split; [done |].
  (* the insertion *)
  assert (exists g,
             d0 = update_story f g d
             /\ string_of_list_ascii (map contents (g (story_of d f)))
                = (if String.eqb (positionOf options) "START"
                   then it_text options +:+ story_text d f
                   else if String.eqb (positionOf options) "END"
                   then story_text d f +:+ it_text options
                   else it_text options)
             /\ (String.eqb (positionOf options) "START"
                 || String.eqb (positionOf options) "END"
                 || String.eqb (positionOf options) "REPLACE") = true)
    as (g & -> & Htext & Hpos).
  { unfold story_text.
    destruct (String.eqb (positionOf options) "START").
    - unfold set_start_contents in Hm.
      destruct (start_contents_throws fh d f _); [discriminate |].
      injection Hm as <-. eexists. split; [done |]. split; [| done].
      rewrite map_app, map_map, string_of_list_ascii_app. simpl.
      by rewrite map_id, string_of_list_ascii_of_string.
    - destruct (String.eqb (positionOf options) "END").
      + unfold set_contents in Hm.
        destruct (contents_throws h d f _); [discriminate |].
        injection Hm as <-. eexists. split; [done |]. split; [| done].
        rewrite map_app, map_map, string_of_list_ascii_app. simpl.
        by rewrite map_id, string_of_list_ascii_of_string.
      + destruct (String.eqb (positionOf options) "REPLACE");
          [| discriminate].
        unfold set_frame_contents in Hm.
        destruct (frame_contents_throws fh d f _); [discriminate |].
        injection Hm as <-. eexists. split; [done |]. split; [| done].
        rewrite map_map. simpl.
        by rewrite map_id, string_of_list_ascii_of_string. }
  (* the style *)
  assert (restyles f (update_story f g d) d1
          /\ paragraphStyles d1 = paragraphStyles (update_story f g d))
    as (((Hp & Hl & Ho) & Hc & _) & Hs).
  { destruct (truthy_opt (it_styleName options)) as [name|].
    - destruct a0. split.
      + by apply (keeps_Returns _ _ _ _ _
                    (keeps_applyStyleToLastParagraph f name) Hm0).
      + by apply (applyStyleToLastParagraph_styles f name).
    - inv_ret Hm0. split; reflexivity. }
  split.
  { unfold story_text at 1. rewrite Hc, story_of_update_story_eq by done.
    exact Htext. }
  split; [done |]. split.
  { intros f' Hf'. rewrite Ho by done. unfold update_story. simpl.
    by rewrite list_lookup_alter_ne. }
  split; [by rewrite Hp | by rewrite Hs].
Qed.

(** X14: [insertText] raises for an identifier no page lists and for a
    position other than START, END and REPLACE; and whenever it raises, for
    these reasons or because the host refuses the text, the document is as
    it was. *)
Theorem insertText_failure_changes_nothing options d :
  (findFrame (it_frameId options) (pages d) = None ->
   insertText options d = Throws d)
  /\ ((String.eqb (positionOf options) "START"
       || String.eqb (positionOf options) "END"
       || String.eqb (positionOf options) "REPLACE") = false ->
      insertText options d = Throws d)
  /\ forall d', insertText options d = Throws d' -> d' = d.
Proof.
  unfold insertText. fold (positionOf options).
  split; [by intros -> |].
  destruct (findFrame (it_frameId options) (pages d)) as [f|];
    [| split; [done | by intros d' [= <-]]].
  assert (forall d',
             (if String.eqb (positionOf options) "START"
              then set_start_contents f (it_text options)
              else if String.eqb (positionOf options) "END"
              then set_contents f (it_text options)
              else if String.eqb (positionOf options) "REPLACE"
              then set_frame_contents f (it_text options)
              else throw) d = Throws d' -> d' = d) as Hop.
  { intros d'.
    destruct (String.eqb (positionOf options) "START");
      [| destruct (String.eqb (positionOf options) "END");
         [| destruct (String.eqb (positionOf options) "REPLACE")]].
    - unfold set_start_contents.
      by destruct (start_contents_throws fh d f _); [intros [= <-] |].
    - unfold set_contents.
      by destruct (contents_throws h d f _); [intros [= <-] |].
    - unfold set_frame_contents.
      by destruct (frame_contents_throws fh d f _); [intros [= <-] |].
    - by intros [= <-]. }
  split.
  - intros Hpos. apply orb_false_iff in Hpos as [Hpos Hr].
    apply orb_false_iff in Hpos as [Hs He].
    unfold bind. by rewrite Hs, He, Hr.
  - intros d'. unfold bind at 1.
    destruct ((if String.eqb (positionOf options) "START"
               then set_start_contents f (it_text options)
               else if String.eqb (positionOf options) "END"
               then set_contents f (it_text options)
               else if String.eqb (positionOf options) "REPLACE"
               then set_frame_contents f (it_text options)
               else throw) d) as [[] d1|d1] eqn:Hrun.
    + unfold bind.
      destruct (truthy_opt (it_styleName options)) as [name|]; [| done].
      by destruct (total_applyStyleToLastParagraph f name d1)
        as ([] & d2 & ->).
    + intros [= <-]. by apply Hop.
Qed.

(** X15: a frame made by [createTextFrame] is the frame [insertText] finds
    under the identifier returned: text inserted with that identifier and no
    position comes after the content the frame was created with. *)
Theorem created_frame_takes_inserted_text options t d r d1 :
  createTextFrame options d = Returns r d1 ->
  contents_throws h d1 (length (frames d)) t = false ->
  exists d2,
    insertText (mkInsertTextOptions (ctf_frameId r) t None None) d1
    = Returns (mkInsertTextResult true (ctf_frameId r) (String.length t) "END")
        d2
    /\ story_text d2 (length (frames d))
       = default ""%string (ctf_content options) +:+ t.
Proof.
  intros Hcreate Htext.
  apply createTextFrame_Returns in Hcreate
    as (Hrange & -> & Hframes & Hpages & _).
  set (n := length (frames d)) in *. simpl.
  assert (findFrame (frameIdOf n) (pages d1) = Some n) as Hfind.
  { destruct (lookup_lt_is_Some_2 _ _ Hrange) as [page Hpage].
    apply (findFrame_on_page _
             (mkPage (bounds page) (marginPreferences page)
                (textFrames page ++ [n]))).
    - apply list_elem_of_lookup. exists (ctf_pageIndex options).
      by rewrite Hpages, list_lookup_alter_eq, Hpage.
    - simpl. apply elem_of_app. right. by apply list_elem_of_singleton. }
  unfold insertText. simpl. rewrite Hfind. simpl.
  unfold bind, set_contents. rewrite Htext. simpl.
  eexists. split; [done |].
  unfold story_text. rewrite story_of_update_story_eq.
  2:{ rewrite Hframes, length_app. simpl. lia. }
  unfold story_of. rewrite Hframes. unfold n. rewrite lookup_length_snoc.
  simpl. rewrite map_app, !map_map, string_of_list_ascii_app. simpl.
  by rewrite !map_id, !string_of_list_ascii_of_string.
Qed.

Lemma applyStyleToLastParagraph_unknown f name d :
  name ∉ paragraphStyles d ->
  applyStyleToLastParagraph f name d = Returns tt d.
Proof.
  intros Hnot. unfold applyStyleToLastParagraph, try_catch.
  erewrite bind_eval by reflexivity.
  erewrite bind_eval by (unfold isValid; reflexivity).
  by rewrite bool_decide_eq_false_2.
Qed.

(** X16: an unknown style name leaves [insertText] without effect on styles:
    the outcome is that of the same call without a style name; the style is
    not created. *)
Theorem insertText_ignores_unknown_style options name d :
  truthy_opt (it_styleName options) = Some name ->
  name ∉ paragraphStyles d ->
  insertText options d
  = insertText (mkInsertTextOptions (it_frameId options) (it_text options)
                  (it_position options) None) d.
Proof.
  intros Hname Hnot. unfold insertText. simpl. rewrite Hname.
  destruct (findFrame (it_frameId options) (pages d)) as [f|]; [| done].
  unfold bind at 1 3.
  match goal with
  | |- match ?op d with _ => _ end = _ => destruct (op d) as [[] d1|d1] eqn:Hop
  end; [| done].
  assert (paragraphStyles d1 = paragraphStyles d) as Hs.
  { revert Hop.
    destruct (String.eqb _ "START");
      [| destruct (String.eqb _ "END");
         [| destruct (String.eqb _ "REPLACE")]].
    - unfold set_start_contents.
      by destruct (start_contents_throws fh d f _); [| intros [= <-]].
    - unfold set_contents.
      by destruct (contents_throws h d f _); [| intros [= <-]].
    - unfold set_frame_contents.
      by destruct (frame_contents_throws fh d f _); [| intros [= <-]].
    - done. }
  unfold bind. rewrite applyStyleToLastParagraph_unknown; [done |].
  by rewrite Hs.
Qed.

(** ** [linkTextFrames] *)

(** X17: [linkTextFrames] addresses the same frames as [insertText] does
    under the two identifiers; when both exist it makes the target the
    successor of the source and changes nothing else (no story, no page, no
    style); otherwise it raises and the document is as it was. *)
Theorem linkTextFrames_links_the_frames_found sourceFrameId targetFrameId d :
  match findFrame sourceFrameId (pages d),
        findFrame targetFrameId (pages d) with
  | Some sourceFrame, Some targetFrame =>
      exists d',
        linkTextFrames sourceFrameId targetFrameId d
        = Returns (mkLinkResult true sourceFrameId targetFrameId) d'
        /\ frames d'
           = alter (fun fr => mkTextFrame (geometricBounds fr)
                                (parentStory fr) (Some targetFrame))
               sourceFrame (frames d)
        /\ pages d' = pages d
        /\ paragraphStyles d' = paragraphStyles d
        /\ forall f, story_of d' f = story_of d f
  | _, _ => linkTextFrames sourceFrameId targetFrameId d = Throws d
  end.
Proof.
  unfold linkTextFrames. rewrite scanFrames_findFrame.
  destruct (findFrame sourceFrameId (pages d)) as [sf|]; [| done].
  destruct (findFrame targetFrameId (pages d)) as [tf|]; [| done].
  eexists. split; [reflexivity |]. simpl. repeat split.
  intros f. unfold story_of. simpl.
  destruct (decide (sf = f)) as [-> | Hne].
  - rewrite list_lookup_alter_eq. by destruct (frames d !! f).
  - by rewrite list_lookup_alter_ne.
Qed.

(** ** [getTextFrames] after a flow *)

(** X18: after a completed flow, [getTextFrames] for page startPage + i
    lists the i-th frame the flow created, with its identifier, that page
    index, the length of its story, a successor for every frame but the
    last and a predecessor for every frame but the first. *)
Theorem getTextFrames_reports_the_chain options d s d' i :
  layoutWordContent options d = Returns s d' ->
  i < framesCreated s ->
  exists infos info,
    getTextFrames (Some (sum_startPage s + i)) d' = Returns infos d'
    /\ info ∈ infos
    /\ fi_id info = frameIdOf (length (frames d) + i)
    /\ fi_pageIndex info = sum_startPage s + i
    /\ fi_contentLength info = length (story_of d' (length (frames d) + i))
    /\ fi_hasNextFrame info = bool_decide (S i < framesCreated s)
    /\ (0 < i -> fi_hasPreviousFrame info = true).
Proof.
  intros H Hi. apply layoutWordContent_flow_invariant in H
    as (l & -> & (_ & Hlen & _ & _ & _ & _ & Hlinks & Hon & _)).
  simpl in *.
  destruct (Hon i Hi) as (page & Hpage & Hin).
  set (f := length (frames d) + i) in *.
  destruct (lookup_lt_is_Some_2 (frames d') f) as [fr Hfr]; [unfold f; lia |].
  unfold getTextFrames. rewrite Hpage.
  eexists _, _. split; [reflexivity |]. split.
  { unfold processPage. apply list_elem_of_omap. exists f. split; [done |].
    unfold frameInfo. rewrite Hfr. reflexivity. }
  simpl. split; [done |]. split; [done |]. split.
  { unfold story_of. by rewrite Hfr. }
  split.
  { specialize (Hlinks i Hi). fold f in Hlinks. rewrite Hfr in Hlinks.
    simpl in Hlinks. injection Hlinks as ->.
    case_decide; [by rewrite !bool_decide_eq_true_2 |].
    by rewrite !bool_decide_eq_false_2 by (try lia; intros ?; congruence). }
  intros Hpos. unfold hasPreviousFrame. apply existsb_exists.
  assert (i - 1 < length (linkedFrames l)) as Hprev by lia.
  specialize (Hlinks (i - 1) Hprev).
  rewrite decide_True in Hlinks by lia.
  destruct (frames d' !! (length (frames d) + (i - 1))) as [pr|] eqn:Hpr;
    [| done].
  simpl in Hlinks. injection Hlinks as Hnext.
  exists pr. split.
  - apply list_elem_of_In, list_elem_of_lookup. by eexists.
  - apply bool_decide_eq_true_2. rewrite Hnext. f_equal. unfold f. lia.
Qed.

(** * Paragraph styles of placed text *)

(** ** The run formatter keeps the paragraph styles of the characters *)

Local Instance same_paragraph_styles_preorder f :
  PreOrder (same_paragraph_styles f).
Proof.
  split.
  - by intros d.
  - intros d1 d2 d3 [H1 L1] [H2 L2]. split; congruence.
Qed.

Lemma same_paragraph_styles_update_char f c g d :
  (forall ch, appliedParagraphStyle (g ch) = appliedParagraphStyle ch) ->
  same_paragraph_styles f d (update_char f c g d).
Proof.
  intros Hg. unfold update_char.
  split; [| apply length_frames_update_story].
  destruct (decide (f < length (frames d))) as [Hf | Hf].
  - rewrite story_of_update_story_eq by done.
    generalize (story_of d f). intros st. revert c.
    induction st as [|ch st IH]; intros [|c]; simpl;
      [done | done | by rewrite Hg | f_equal; apply IH].
  - rewrite !story_of_ge; [done | lia |].
    rewrite length_frames_update_story. lia.
Qed.

Lemma pstyles_keeps_set_fontStyle f c v :
  keeps (same_paragraph_styles f) (set_fontStyle f c v).
Proof.
  intros d. unfold set_fontStyle.
  destruct (story_of d f !! c) as [ch|]; simpl; [| reflexivity].
  destruct (fontStyle_throws h ch v); simpl; [reflexivity |].
  by apply same_paragraph_styles_update_char.
Qed.

Lemma pstyles_keeps_set_underline f c :
  keeps (same_paragraph_styles f) (set_underline f c).
Proof.
  intros d. unfold set_underline.
  destruct (story_of d f !! c) as [ch|]; simpl; [| reflexivity].
  destruct (underline_throws h ch); simpl; [reflexivity |].
  by apply same_paragraph_styles_update_char.
Qed.

Lemma pstyles_keeps_formatRuns f rs charIndex :
  keeps (same_paragraph_styles f) (formatRuns f rs charIndex).
Proof.
  revert charIndex. induction rs as [|run rest IH]; intros charIndex; simpl.
  - apply keeps_ret; apply _.
  - destruct (formatting run) as [fmt|]; [| apply IH].
    destruct (truthy (text run)); [| apply IH].
    apply keeps_bind; [apply _ | | intros []; apply IH].
    apply keeps_try_catch; [apply _ | | apply keeps_ret; apply _].
    generalize (String.length (text run)). intros n. revert charIndex.
    induction n as [|n IHn]; intros c; simpl; [apply keeps_ret; apply _ |].
    apply keeps_bind; [apply _ | by intros d |]. intros len.
    destruct (c <? len); [| apply keeps_ret; apply _].
    apply keeps_bind; [apply _ | | intros []; apply IHn].
    unfold formatCharacter.
    apply keeps_bind; [apply _ | | intros []].
    + destruct (bold fmt);
        [apply pstyles_keeps_set_fontStyle | apply keeps_ret; apply _].
    + apply keeps_bind; [apply _ | | intros []].
      * destruct (italic fmt);
          [apply pstyles_keeps_set_fontStyle | apply keeps_ret; apply _].
      * destruct (underline fmt);
          [apply pstyles_keeps_set_underline | apply keeps_ret; apply _].
Qed.

(** ** Where the last paragraph starts *)

Lemma last_paragraph_start_cons i start c rest :
  rest <> [] ->
  last_paragraph_start i start (c :: rest)
  = last_paragraph_start (S i) (if is_CR c then S i else start) rest.
Proof. by destruct rest. Qed.

Lemma last_paragraph_start_body i start body cr :
  Forall (fun c => is_CR c = false) body ->
  last_paragraph_start i start (body ++ [cr]) = start.
Proof.
  intros Hbody. revert i start.
  induction Hbody as [|c body Hc _ IH]; intros i start; [done |].
  rewrite <- app_comm_cons, last_paragraph_start_cons by by destruct body.
  rewrite Hc. apply IH.
Qed.

Lemma last_paragraph_start_after st i start body cr :
  st = [] \/ (exists c, last st = Some c /\ is_CR c = true) ->
  Forall (fun c => is_CR c = false) body ->
  last_paragraph_start i start (st ++ body ++ [cr])
  = match st with [] => start | _ => i + length st end.
Proof.
  intros Hst Hbody. revert i start Hst.
  induction st as [|c st IH]; intros i start Hst.
  - simpl. by apply last_paragraph_start_body.
  - rewrite <- app_comm_cons, last_paragraph_start_cons
      by (destruct st, body; discriminate).
    destruct Hst as [? | (c0 & Hlast & Hcr)]; [done |].
    rewrite IH.
    + destruct st as [|c1 st]; simpl.
      * simpl in Hlast. injection Hlast as ->. rewrite Hcr. lia.
      * lia.
    + destruct st as [|c1 st]; [by left | right].
      exists c0. split; [| done]. by rewrite last_cons_cons in Hlast.
Qed.

Lemma list_ascii_of_string_app (s t : string) :
  list_ascii_of_string (s +:+ t)
  = list_ascii_of_string s ++ list_ascii_of_string t.
Proof.
  induction s as [|a s IH]; [done |].
  rewrite append_cons. simpl. by rewrite IH.
Qed.

Lemma paragraphTextOf_styled p s :
  truthy_opt (style p) = Some s ->
  paragraphTextOf p = Some (runsText (runs p) "" +:+ CR).
Proof.
  intros Hs. unfold paragraphTextOf. rewrite Hs.
  destruct (runsText (runs p) "") as [|a body]; done.
Qed.

Lemma styled_from_threshold sty (st new : list Character) :
  map appliedParagraphStyle
    (imap (fun i c => if length st <=? i then set_paragraph_style sty c else c)
       (st ++ new))
  = map appliedParagraphStyle st ++ replicate (length new) (Some sty).
Proof.
  rewrite imap_app, map_app. f_equal.
  - f_equal. transitivity (imap (fun _ c => c) st).
    + apply imap_ext. intros i c Hi. apply lookup_lt_Some in Hi.
      by destruct (Nat.leb_spec (length st) i); [lia |].
    + clear. induction st as [|c st IH]; [done |]. simpl. f_equal.
      exact IH.
  - transitivity (map appliedParagraphStyle
                    (imap (fun _ => set_paragraph_style sty) new)).
    + f_equal. apply imap_ext. intros i c _.
      by destruct (Nat.leb_spec (length st) (length st + i)); [| lia].
    + clear. induction new as [|c new IH]; [done |]. simpl. f_equal.
      exact IH.
Qed.

(** X19: a styled paragraph whose runs hold no paragraph break, placed after
    an empty story or after a paragraph break, gives the style its name
    resolves to in the document after the insertion (the target name when a
    style of that name exists or is created, and "[Basic Paragraph]" only
    when it cannot be created) to every character it inserts, break
    included, and to no earlier character; the run formatting that follows
    does not change it. *)
Theorem placed_paragraph_carries_its_style autoFlow sm p s l d l' d' :
  truthy_opt (style p) = Some s ->
  currentTextFrame l < length (frames d) ->
  (story_of d (currentTextFrame l) = []
   \/ exists c, last (story_of d (currentTextFrame l)) = Some c
                /\ is_CR c = true) ->
  Forall (fun a => a <> "013"%char)
    (list_ascii_of_string (runsText (runs p) "")) ->
  (forall d2 sty,
      appliedParagraphStyle_throws h d2 (currentTextFrame l) sty = false) ->
  processBlock autoFlow sm (ParagraphBlock p) l d = Returns l' d' ->
  map appliedParagraphStyle (story_of d' (currentTextFrame l))
  = map appliedParagraphStyle (story_of d (currentTextFrame l))
    ++ replicate (S (String.length (runsText (runs p) "")))
         (Some (resolved_style sm s
                  (appended (currentTextFrame l)
                     (runsText (runs p) "" +:+ CR) d))).
Proof.
  set (f := currentTextFrame l). set (body := runsText (runs p) "").
  intros Hs Hf Hend Hbody Hhost H. simpl in H.
  rewrite (paragraphTextOf_styled _ _ Hs) in H. fold body in H.
  inv_bind H. rename d0 into d1, a into l1, Hm into Hplace.
  pose proof (placeParagraph_locals _ _ _ _ _ _ _ Hplace) as ->.
  assert (story_of d' f = story_of d1 f) as ->.
  { apply checkOverflow_frames in H as (_ & _ & _ & Hst); simpl.
    - apply Hst.
      pose proof (placeParagraph_story _ _ _ _ _ _ _ Hf Hplace)
        as ((_ & Hlen & _) & _). fold f in Hlen. lia.
    - pose proof (placeParagraph_story _ _ _ _ _ _ _ Hf Hplace)
        as ((_ & Hlen & _) & _). fold f in Hlen. lia. }
  clear H.
  unfold placeParagraph in Hplace. fold f in Hplace. rewrite Hs in Hplace.
  inv_bind Hplace. unfold characters_length in Hm. injection Hm as <- <-.
  inv_bind Hplace. unfold set_contents in Hm.
  destruct (contents_throws h d f _); [discriminate |].
  injection Hm as <- <-.
  inv_bind Hplace. inv_bind Hm. rename a0 into sty.
  apply getOrCreateStyle_frames in Hm0 as [Hfr Hsty].
  unfold try_catch, set_last_appliedParagraphStyle in Hm.
  rewrite Hhost in Hm. injection Hm as <- <-.
  inv_bind Hplace.
  apply (keeps_Returns _ _ _ _ _ (pstyles_keeps_formatRuns f _ _)) in Hm
    as [Hstyles _].
  unfold ret in Hplace. injection Hplace as <-.
  unfold appended. rewrite <- Hsty.
  rewrite Hstyles, story_of_update_story_eq
    by (rewrite Hfr, length_frames_update_story; done).
  rewrite (story_of_frames_eq _ _ _ Hfr), story_of_update_story_eq by done.
  cbv zeta.
  rewrite list_ascii_of_string_app, map_app. simpl.
  set (st := story_of d f) in *.
  set (new := map plain (list_ascii_of_string body)).
  assert (last_paragraph_start 0 0 (st ++ new ++ [plain "013"%char])
          = length st) as ->.
  { rewrite last_paragraph_start_after.
    - by destruct st.
    - destruct Hend as [-> | ?]; by auto.
    - unfold new. apply Forall_map.
      eapply Forall_impl; [exact Hbody |]. intros ch Hch.
      unfold is_CR. simpl. by apply bool_decide_eq_false_2. }
  rewrite styled_from_threshold. f_equal.
  unfold new. rewrite length_app, length_map.
  replace (length (list_ascii_of_string body)) with (String.length body).
  - change (length [plain "013"%char]) with 1. by rewrite Nat.add_1_r.
  - clear. generalize body. intros b.
    induction b as [|a b IH]; simpl; [done | by f_equal].
Qed.

End Engine.

Arguments Returns {num A} a d.
Arguments Throws {num A} d.

(** * The properties on sample documents *)

(** A page of 612 x 792 with margins 36, 48, 72, 60 (top, left, bottom,
    right); a host for it whose frames hold [capacity] characters; the
    document with that page alone, and with one frame holding [s] on it. *)
Local Abbreviation page_bounds := (@mkBounds Z 0 0 792 612)%Z.
Local Abbreviation page_margins := (@mkMargins Z 36 48 72 60)%Z.
Local Abbreviation host capacity :=
  (accepting_host page_bounds page_margins capacity).
Local Abbreviation blank := (single_page_document page_bounds page_margins).
Local Abbreviation framed s := (single_frame_document page_bounds page_margins s).
Local Abbreviation normal_to_body :=
  ({[ "Normal"%string := "Body Text"%string ]} : gmap string string).
Local Abbreviation at_frame_0 := (mkLocals 0 0 0 0 [0]).
Local Abbreviation hello_text := ("Hello" +:+ CR)%string.

(** C8 on the sample page. *)
Lemma content_bounds_of_own_page_witness :
  getOrCreateTextFrame Z.add Z.sub (host 100) 0 0 blank
  = Returns (0, 0)
      (mkDocument [mkPage page_bounds page_margins [0]]
         [mkTextFrame (mkBounds 36 48 720 552)%Z [] None] [])
  /\ getPageContentBounds Z.sub 0
       (mkDocument [mkPage page_bounds page_margins [0]]
          [mkTextFrame (mkBounds 36 48 720 552)%Z [] None] [])
     = Returns (mkContentBounds 48 36 504 684)%Z
         (mkDocument [mkPage page_bounds page_margins [0]]
            [mkTextFrame (mkBounds 36 48 720 552)%Z [] None] []).
Proof.
  assert (getOrCreateTextFrame Z.add Z.sub (host 100) 0 0 blank
          = Returns (0, 0)
              (mkDocument [mkPage page_bounds page_margins [0]]
                 [mkTextFrame (mkBounds 36 48 720 552)%Z [] None] []))
    as Hget by (vm_compute; reflexivity).
  split; [exact Hget |].
  destruct (content_bounds_of_own_page Z.add Z.sub (host 100) _ _ _ _ _ _ Hget)
    as (page & Hpage & _ & Hcb & _).
  vm_compute in Hpage. injection Hpage as <-. exact Hcb.
Defined.

(** C9 on two paragraphs that each overflow their frame. *)
Lemma chain_length_tracks_page_index_witness :
  layoutWordContent Z.add Z.sub (host 3)
    (mkOptions (Some [ParagraphBlock hello_paragraph;
                      ParagraphBlock hello_paragraph])
       None None (Some 4))
    blank
  = Returns (mkSummary 6 2 3 4 6)
      (final_document
         (layoutWordContent Z.add Z.sub (host 3)
            (mkOptions (Some [ParagraphBlock hello_paragraph;
                              ParagraphBlock hello_paragraph])
               None None (Some 4))
            blank))
  /\ 6 = 4 + 3 - 1.
Proof.
  assert (layoutWordContent Z.add Z.sub (host 3)
            (mkOptions (Some [ParagraphBlock hello_paragraph;
                              ParagraphBlock hello_paragraph])
               None None (Some 4))
            blank
          = Returns (mkSummary 6 2 3 4 6)
              (final_document
                 (layoutWordContent Z.add Z.sub (host 3)
                    (mkOptions (Some [ParagraphBlock hello_paragraph;
                                      ParagraphBlock hello_paragraph])
                       None None (Some 4))
                    blank)))
    as Hrun by (vm_compute; reflexivity).
  split; [exact Hrun |].
  destruct (chain_length_tracks_page_index Z.add Z.sub (host 3))
    as (_ & _ & Hsummary).
  exact (proj1 (Hsummary _ _ _ _ Hrun)).
Defined.

(** C2 on a frame of three characters: "Hello" overflows it, and a second
    "Hello" goes to a new frame on the next page. *)
Lemma overflow_advances_one_page_witness :
  exists l1 d1 l2 d2 l3 d3,
    placeParagraph (host 3) normal_to_body hello_paragraph hello_text
      at_frame_0 (framed "") = Returns l1 d1
    /\ frame_overflows (host 3) d1 0 = true
    /\ processBlock Z.add Z.sub (host 3) true normal_to_body
         (ParagraphBlock hello_paragraph) at_frame_0 (framed "")
       = Returns l2 d2
    /\ processBlocks Z.add Z.sub (host 3) true normal_to_body
         [ParagraphBlock hello_paragraph] l2 d2
       = Returns l3 d3
    /\ currentPageIndex l2 = 1
    /\ currentTextFrame l2 = 1
    /\ nextTextFrame <$> frames d2 !! 0 = Some (Some 1)
    /\ linkedFrames l2 = [0; 1]
    /\ story_of d3 0 = story_of d1 0.
Proof.
  set (o1 := placeParagraph (host 3) normal_to_body hello_paragraph hello_text
               at_frame_0 (framed "")).
  set (o2 := processBlock Z.add Z.sub (host 3) true normal_to_body
               (ParagraphBlock hello_paragraph) at_frame_0 (framed "")).
  set (o3 := processBlocks Z.add Z.sub (host 3) true normal_to_body
               [ParagraphBlock hello_paragraph]
               (returned at_frame_0 o2) (final_document o2)).
  exists (returned at_frame_0 o1), (final_document o1),
    (returned at_frame_0 o2), (final_document o2),
    (returned at_frame_0 o3), (final_document o3).
  assert (o1 = Returns (returned at_frame_0 o1) (final_document o1)) as H1
    by (vm_compute; reflexivity).
  assert (frame_overflows (host 3) (final_document o1) 0 = true) as Hov
    by (vm_compute; reflexivity).
  assert (o2 = Returns (returned at_frame_0 o2) (final_document o2)) as H2
    by (vm_compute; reflexivity).
  assert (o3 = Returns (returned at_frame_0 o3) (final_document o3)) as H3
    by (vm_compute; reflexivity).
  assert (currentTextFrame at_frame_0 < length (frames (framed ""))) as Hf
    by (vm_compute; lia).
  assert (paragraphTextOf hello_paragraph = Some hello_text) as Htext
    by (vm_compute; reflexivity).
  destruct (overflow_advances_one_page Z.add Z.sub (host 3) _ _ _ _ _ _ _ _ _ _
              _ _ Hf Htext H1 Hov H2 H3)
    as (Hpage & Hnew & _ & _ & Hnext & Hchain & _ & _ & Hstory & _).
  repeat split; assumption.
Defined.



(** C4 on a paragraph without runs, first without and then with a style:
    the break appended after "AB" carries "Body Text". *)
Lemma empty_paragraph_witness :
  processBlock Z.add Z.sub (host 3) true normal_to_body
    (ParagraphBlock (mkPara [mkRun "" None] None)) at_frame_0 (framed "")
  = Returns at_frame_0 (framed "")
  /\ story_text
       (final_document
          (processBlock Z.add Z.sub (host 3) true normal_to_body
             (ParagraphBlock (mkPara [] (Some "Normal"%string)))
             at_frame_0 (framed "AB")))
       0
     = ("AB" +:+ CR)%string
  /\ exists c,
       last (story_of
               (final_document
                  (processBlock Z.add Z.sub (host 3) true normal_to_body
                     (ParagraphBlock (mkPara [] (Some "Normal"%string)))
                     at_frame_0 (framed "AB")))
               0)
       = Some c
       /\ contents c = "013"%char
       /\ appliedParagraphStyle c = Some "Body Text"%string.
Proof.
  split.
  - refine (proj1 (empty_paragraph Z.add Z.sub (host 3) true normal_to_body
                     (mkPara [mkRun "" None] None) at_frame_0 (framed "") _) _);
      reflexivity.
  - set (o := processBlock Z.add Z.sub (host 3) true normal_to_body
                (ParagraphBlock (mkPara [] (Some "Normal"%string)))
                at_frame_0 (framed "AB")).
    assert (o = Returns (returned at_frame_0 o) (final_document o)) as Ho
      by (vm_compute; reflexivity).
    destruct (proj2 (empty_paragraph Z.add Z.sub (host 3) true normal_to_body
                       (mkPara [] (Some "Normal"%string))
                       at_frame_0 (framed "AB") eq_refl)
                "Normal"%string (returned at_frame_0 o) (final_document o)
                eq_refl)
      as (_ & Htext & c & Hlast & Hcr & Hstyle);
      [vm_compute; lia | reflexivity | exact Ho |].
    split; [exact Htext |]. exists c.
    split; [exact Hlast |]. split; [exact Hcr |].
    rewrite Hstyle. vm_compute. reflexivity.
Defined.

(** C5 on the sample page, with frames of a hundred characters. *)
Lemma hello_on_existing_page_witness :
  exists d' f page,
    layoutWordContent Z.add Z.sub (host 100) hello_options blank
    = Returns (mkSummary 0 1 1 0 0) d'
    /\ pages d' !! 0 = Some page
    /\ textFrames page = [f]
    /\ story_text d' f = hello_text
    /\ Forall (fun c => appliedParagraphStyle c = Some "Body Text"%string)
         (story_of d' f).
Proof.
  refine (hello_on_existing_page Z.add Z.sub (host 100) blank
            (mkPage page_bounds page_margins []) _ _ _ _ _ _ _);
    try reflexivity.
  intros d' f Hlen. simpl. apply Nat.ltb_ge. lia.
Defined.

(** C10 on a table followed by a table without rows and a paragraph. *)
Lemma tables_count_as_paragraphs_witness :
  layoutWordContent Z.add Z.sub (host 100)
    (mkOptions
       (Some [TableBlock [[[CellParagraph (mkPara [mkRun "A" None] None)]]];
              TableBlock [];
              ParagraphBlock hello_paragraph])
       None None None)
    blank
  = Returns (mkSummary 0 2 1 0 0)
      (final_document
         (layoutWordContent Z.add Z.sub (host 100)
            (mkOptions
               (Some [TableBlock [[[CellParagraph (mkPara [mkRun "A" None] None)]]];
                      TableBlock [];
                      ParagraphBlock hello_paragraph])
               None None None)
            blank))
  /\ 2 = length
           (List.filter placesText
              [TableBlock [[[CellParagraph (mkPara [mkRun "A" None] None)]]];
               TableBlock [];
               ParagraphBlock hello_paragraph]).
Proof.
  assert (layoutWordContent Z.add Z.sub (host 100)
            (mkOptions
               (Some [TableBlock [[[CellParagraph (mkPara [mkRun "A" None] None)]]];
                      TableBlock [];
                      ParagraphBlock hello_paragraph])
               None None None)
            blank
          = Returns (mkSummary 0 2 1 0 0)
              (final_document
                 (layoutWordContent Z.add Z.sub (host 100)
                    (mkOptions
                       (Some [TableBlock [[[CellParagraph (mkPara [mkRun "A" None] None)]]];
                              TableBlock [];
                              ParagraphBlock hello_paragraph])
                       None None None)
                    blank)))
    as Hrun by (vm_compute; reflexivity).
  split; [exact Hrun |].
  destruct (tables_count_as_paragraphs Z.add Z.sub (host 100))
    as (_ & _ & Hsummary).
  exact (Hsummary _ _ _ _ Hrun).
Defined.

(** C1: the run formatter does not advance its character index over a run
    without formatting.  With the runs "AB" (no formatting) and "CD" (bold)
    appended at story offset 10, the code makes the characters 10 and 11
    ("AB") bold and leaves 12 and 13 ("CD") as they were, where the ranges of
    the specification are [10,12) for "AB" and [12,14) for "CD". *)
Theorem run_offsets_skip_unformatted_runs :
  (forall (h : @Host Z) f t rest charIndex,
      formatRuns h f (mkRun t None :: rest) charIndex
      = formatRuns h f rest charIndex)
  /\ map fontStyle
       (drop 10
          (story_of
             (final_document
                (processBlock Z.add Z.sub (host 100) true ∅
                   (ParagraphBlock
                      (mkPara
                         [mkRun "AB" None;
                          mkRun "CD" (Some (mkFormatting true false false))]
                         None))
                   at_frame_0 (framed ("123456789" +:+ CR)%string)))
             0))
     = ["Bold"; "Bold"; "Regular"; "Regular"; "Regular"]%string.
Proof.
  split; [reflexivity |]. vm_compute. reflexivity.
Qed.

(** * The further properties on sample documents *)

(** Two paragraphs "Hello" from page 4 on, each overflowing a frame of three
    characters, flowed into the document that already holds "AB" in a frame
    on its only page: six pages and three frames are created. *)
Local Abbreviation two_hellos :=
  (mkOptions (Some [ParagraphBlock hello_paragraph;
                    ParagraphBlock hello_paragraph])
     None None (Some 4)).
Local Abbreviation flowed :=
  (layoutWordContent Z.add Z.sub (host 3) two_hellos (framed "AB")).

(** A host that refuses every style and every character format, and frame
    hosts that accept, or refuse, the assignment of a frame's contents. *)
Local Abbreviation host_without_styles :=
  (mkHost (fun _ => Some (page_bounds, page_margins))
     (fun _ _ _ => false) (fun _ _ _ => false) (fun _ _ => false)
     (fun _ _ => true) (fun _ _ _ => true) (fun _ _ => true)
     (fun _ => true) (fun _ => None)).
Local Abbreviation frame_host :=
  (@mkFrameHost Z (fun _ _ _ => false) (fun _ _ _ => false)).
Local Abbreviation frame_host_refusing :=
  (@mkFrameHost Z (fun _ _ _ => true) (fun _ _ _ => false)).

(** X1 on the sample flow: the frame holding "AB" is as it was. *)
Lemma flow_only_adds_witness :
  flowed = Returns (mkSummary 6 2 3 4 6) (final_document flowed)
  /\ frames (final_document flowed) !! 0 = frames (framed "AB") !! 0.
Proof.
  assert (flowed = Returns (mkSummary 6 2 3 4 6) (final_document flowed))
    as Hrun by (vm_compute; reflexivity).
  split; [exact Hrun |].
  apply (proj1 (flow_only_adds Z.add Z.sub (host 3) _ _ _ _ Hrun)).
  vm_compute. lia.
Defined.

(** X2 on the sample flow: three frames and six pages more. *)
Lemma summary_counts_are_exact_witness :
  flowed = Returns (mkSummary 6 2 3 4 6) (final_document flowed)
  /\ length (frames (final_document flowed)) = 1 + 3
  /\ length (pages (final_document flowed)) = 1 + 6.
Proof.
  assert (flowed = Returns (mkSummary 6 2 3 4 6) (final_document flowed))
    as Hrun by (vm_compute; reflexivity).
  split; [exact Hrun |].
  exact (summary_counts_are_exact Z.add Z.sub (host 3) _ _ _ _ Hrun).
Defined.

(** X3 on the sample flow: the second frame created is frame 2, on page 5,
    and its successor is frame 3. *)
Lemma chain_is_linked_over_consecutive_pages_witness :
  flowed = Returns (mkSummary 6 2 3 4 6) (final_document flowed)
  /\ nextTextFrame <$> frames (final_document flowed) !! 2 = Some (Some 3)
  /\ exists page, pages (final_document flowed) !! 5 = Some page
                  /\ 2 ∈ textFrames page.
Proof.
  assert (flowed = Returns (mkSummary 6 2 3 4 6) (final_document flowed))
    as Hrun by (vm_compute; reflexivity).
  split; [exact Hrun |].
  refine (chain_is_linked_over_consecutive_pages Z.add Z.sub (host 3)
            _ _ _ _ 1 Hrun _).
  vm_compute. lia.
Defined.

(** X4 on the sample page: two pages are missing up to index 2. *)
Lemma ensurePage_adds_the_missing_pages_witness :
  ensurePage (host 3) 2 0 blank
  = Returns 2 (final_document (ensurePage (host 3) 2 0 blank))
  /\ length (pages (final_document (ensurePage (host 3) 2 0 blank))) = 3
  /\ ensurePage (host 3) 2 2 (final_document (ensurePage (host 3) 2 0 blank))
     = Returns 2 (final_document (ensurePage (host 3) 2 0 blank)).
Proof.
  assert (ensurePage (host 3) 2 0 blank
          = Returns 2 (final_document (ensurePage (host 3) 2 0 blank)))
    as Hrun by (vm_compute; reflexivity).
  split; [exact Hrun |].
  destruct (ensurePage_adds_the_missing_pages (host 3) _ _ _ _ _ Hrun)
    as ((new & Hpages & Hnew & _) & _ & _ & Hagain).
  split; [| exact Hagain].
  rewrite Hpages, length_app, Hnew. reflexivity.
Defined.

(** X5 with a host that refuses every style and every character format. *)
Lemma flow_completes_despite_style_failures_witness :
  exists s d',
    layoutWordContent Z.add Z.sub host_without_styles
      (mkOptions
         (Some [ParagraphBlock
                  (mkPara [mkRun "Hello" (Some (mkFormatting true true true))]
                     (Some "Normal"%string))])
         None None None)
      blank
    = Returns s d'.
Proof.
  apply flow_completes_despite_style_failures.
  - intros d1. simpl. discriminate.
  - reflexivity.
  - reflexivity.
Defined.

(** X6 on the sample flow: the three frames hold "Hello\rHello\r". *)
Lemma flow_places_the_text_in_order_witness :
  flowed = Returns (mkSummary 6 2 3 4 6) (final_document flowed)
  /\ chainText (final_document flowed) 1 3 = (hello_text +:+ hello_text)%string.
Proof.
  assert (flowed = Returns (mkSummary 6 2 3 4 6) (final_document flowed))
    as Hrun by (vm_compute; reflexivity).
  split; [exact Hrun |].
  exact (flow_places_the_text_in_order Z.add Z.sub (host 3) _ _ _ _ Hrun).
Defined.

(** X7 on the sample flow: three frames for two placed paragraphs. *)
Lemma frames_bounded_by_placed_paragraphs_witness :
  flowed = Returns (mkSummary 6 2 3 4 6) (final_document flowed)
  /\ 3 <= 1 + length (List.filter isPlacedParagraph
                        [ParagraphBlock hello_paragraph;
                         ParagraphBlock hello_paragraph]).
Proof.
  assert (flowed = Returns (mkSummary 6 2 3 4 6) (final_document flowed))
    as Hrun by (vm_compute; reflexivity).
  split; [exact Hrun |].
  exact (proj1 (frames_bounded_by_placed_paragraphs Z.add Z.sub (host 3)
                  _ _ _ _ Hrun)).
Defined.

(** X8 on the same content with auto-flow off: one frame takes all. *)
Lemma single_frame_without_overflow_witness :
  exists d',
    layoutWordContent Z.add Z.sub (host 3)
      (mkOptions (Some [ParagraphBlock hello_paragraph;
                        ParagraphBlock hello_paragraph])
         None (Some false) None)
      (framed "AB")
    = Returns (mkSummary 0 2 1 0 0) d'
    /\ story_text d' 1 = (hello_text +:+ hello_text)%string.
Proof.
  set (o := layoutWordContent Z.add Z.sub (host 3)
              (mkOptions (Some [ParagraphBlock hello_paragraph;
                                ParagraphBlock hello_paragraph])
                 None (Some false) None)
              (framed "AB")).
  assert (o = Returns (mkSummary 0 2 1 0 0) (final_document o)) as Hrun
    by (vm_compute; reflexivity).
  exists (final_document o). split; [exact Hrun |].
  refine (proj2 (proj2 (proj2 (single_frame_without_overflow Z.add Z.sub
                                 (host 3) _ _ _ _ _ Hrun)))).
  left. reflexivity.
Defined.

(** X9 on a run that asks for bold beyond the end of the story. *)
Lemma run_formatting_never_aborts_or_edits_text_witness :
  exists d',
    formatRuns host_without_styles 0
      [mkRun "Hello" (Some (mkFormatting true false true))] 1 (framed "AB")
    = Returns tt d'
    /\ story_text d' 0 = "AB"%string.
Proof.
  destruct (run_formatting_never_aborts_or_edits_text host_without_styles 0
              [mkRun "Hello" (Some (mkFormatting true false true))] 1
              (framed "AB"))
    as (d' & Hrun & _ & _ & _ & _ & Htext & _).
  exists d'. split; [exact Hrun | exact Htext].
Defined.

(** X10 on "ABCD": five characters asked for from index 1, three exist. *)
Lemma run_formatter_formats_the_clamped_range_witness :
  exists d',
    formatCharacters (host 3) 0 (mkFormatting true false true) 1 5
      (framed "ABCD")
    = Returns tt d'
    /\ story_of d' 0 !! 0 = Some (plain "A"%char)
    /\ story_of d' 0 !! 3
       = Some (mkCharacter "D"%char "Bold" true None).
Proof.
  destruct (run_formatter_formats_the_clamped_range (host 3) 0
              (mkFormatting true false true) 1 5 (framed "ABCD"))
    as (d' & Hrun & _ & Hchars); [reflexivity | reflexivity |].
  exists d'. split; [exact Hrun |].
  split; rewrite Hchars; reflexivity.
Defined.

(** X11 on the sample page: a frame of 100 x 50 at (10, 20) holding "Hi",
    and a page index out of range. *)
Lemma createTextFrame_adds_one_frame_witness :
  createTextFrame Z.add (host 3) frame_host
    (mkCreateTextFrameOptions 1 10 20 100 50 (Some "Hi"%string))%Z blank
  = Throws blank
  /\ exists d',
       createTextFrame Z.add (host 3) frame_host
         (mkCreateTextFrameOptions 0 10 20 100 50 (Some "Hi"%string))%Z blank
       = Returns (mkCreateTextFrameResult "0" (mkContentBounds 10 20 100 50) 0)%Z
           d'
       /\ frames d'
          = [mkTextFrame (mkBounds 20 10 70 110)%Z
               [plain "H"%char; plain "i"%char] None].
Proof.
  split.
  - apply (proj1 (createTextFrame_adds_one_frame Z.add (host 3) frame_host
                    (mkCreateTextFrameOptions 1 10 20 100 50
                       (Some "Hi"%string))%Z blank)).
    vm_compute. lia.
  - set (o := createTextFrame Z.add (host 3) frame_host
                (mkCreateTextFrameOptions 0 10 20 100 50 (Some "Hi"%string))%Z
                blank).
    assert (o = Returns
                  (mkCreateTextFrameResult "0" (mkContentBounds 10 20 100 50) 0)%Z
                  (final_document o)) as Hrun by (vm_compute; reflexivity).
    exists (final_document o). split; [exact Hrun |].
    destruct (proj2 (createTextFrame_adds_one_frame Z.add (host 3) frame_host
                       _ _) _ _ Hrun) as (_ & _ & Hframes & _).
    exact Hframes.
Defined.

(** X12 with a host that refuses the content: the frame stays, empty. *)
Lemma createTextFrame_failure_leaves_at_most_an_empty_frame_witness :
  createTextFrame Z.add (host 3) frame_host_refusing
    (mkCreateTextFrameOptions 0 0 0 612 792 (Some "Hi"%string))%Z blank
  = Throws (framed "")
  /\ (framed "" = blank
      \/ exists c,
           truthy_opt (Some "Hi"%string) = Some c
           /\ frames (framed "")
              = frames blank ++ [mkTextFrame page_bounds [] None]
           /\ pages (framed "")
              = alter (fun p => mkPage (bounds p) (marginPreferences p)
                                  (textFrames p ++ [0])) 0 (pages blank)
           /\ paragraphStyles (framed "") = paragraphStyles blank).
Proof.
  assert (createTextFrame Z.add (host 3) frame_host_refusing
            (mkCreateTextFrameOptions 0 0 0 612 792 (Some "Hi"%string))%Z blank
          = Throws (framed "")) as Hrun by (vm_compute; reflexivity).
  split; [exact Hrun |].
  exact (createTextFrame_failure_leaves_at_most_an_empty_frame Z.add (host 3)
           frame_host_refusing _ _ _ Hrun).
Defined.

(** X13 on the frame holding "AB": "XY" at the start gives "XYAB". *)
Lemma insertText_places_text_by_position_witness :
  exists d',
    insertText (host 3) frame_host
      (mkInsertTextOptions "0" "XY" (Some "START"%string) None) (framed "AB")
    = Returns (mkInsertTextResult true "0" 2 "START") d'
    /\ story_text d' 0 = "XYAB"%string.
Proof.
  set (o := insertText (host 3) frame_host
              (mkInsertTextOptions "0" "XY" (Some "START"%string) None)
              (framed "AB")).
  assert (o = Returns (mkInsertTextResult true "0" 2 "START")
                (final_document o)) as Hrun by (vm_compute; reflexivity).
  exists (final_document o). split; [exact Hrun |].
  assert (pages_wf (framed "AB")) as Hwf.
  { intros page f Hpage Hf. simpl in Hpage.
    apply list_elem_of_singleton in Hpage as ->.
    apply list_elem_of_singleton in Hf as ->. simpl. lia. }
  destruct (insertText_places_text_by_position (host 3) frame_host _ _ _ _
              Hwf Hrun) as (f & Hfind & _ & _ & Htext & _).
  vm_compute in Hfind. injection Hfind as <-. exact Htext.
Defined.

(** X14 on the frame holding "AB": an identifier that no page lists, and
    the position "MIDDLE". *)
Lemma insertText_failure_changes_nothing_witness :
  insertText (host 3) frame_host
    (mkInsertTextOptions "7" "XY" None None) (framed "AB")
  = Throws (framed "AB")
  /\ insertText (host 3) frame_host
       (mkInsertTextOptions "0" "XY" (Some "MIDDLE"%string) None) (framed "AB")
     = Throws (framed "AB").
Proof.
  split.
  - apply (proj1 (insertText_failure_changes_nothing (host 3) frame_host
                    (mkInsertTextOptions "7" "XY" None None) (framed "AB"))).
    vm_compute. reflexivity.
  - apply (proj1 (proj2 (insertText_failure_changes_nothing (host 3)
                           frame_host
                           (mkInsertTextOptions "0" "XY"
                              (Some "MIDDLE"%string) None)
                           (framed "AB")))).
    vm_compute. reflexivity.
Defined.

(** X15 on the sample page: "Hi" at creation, then "!" inserted. *)
Lemma created_frame_takes_inserted_text_witness :
  exists d1 d2,
    createTextFrame Z.add (host 3) frame_host
      (mkCreateTextFrameOptions 0 10 20 100 50 (Some "Hi"%string))%Z blank
    = Returns (mkCreateTextFrameResult "0" (mkContentBounds 10 20 100 50) 0)%Z
        d1
    /\ insertText (host 3) frame_host
         (mkInsertTextOptions "0" "!" None None) d1
       = Returns (mkInsertTextResult true "0" 1 "END") d2
    /\ story_text d2 0 = "Hi!"%string.
Proof.
  set (o := createTextFrame Z.add (host 3) frame_host
              (mkCreateTextFrameOptions 0 10 20 100 50 (Some "Hi"%string))%Z
              blank).
  assert (o = Returns
                (mkCreateTextFrameResult "0" (mkContentBounds 10 20 100 50) 0)%Z
                (final_document o)) as Hrun by (vm_compute; reflexivity).
  destruct (created_frame_takes_inserted_text Z.add (host 3) frame_host
              _ "!" _ _ _ Hrun eq_refl) as (d2 & Hinsert & Htext).
  exists (final_document o), d2.
  split; [exact Hrun |]. split; [exact Hinsert | exact Htext].
Defined.

(** X16 on the frame holding "AB", whose document has no style "Title". *)
Lemma insertText_ignores_unknown_style_witness :
  insertText (host 3) frame_host
    (mkInsertTextOptions "0" "XY" None (Some "Title"%string)) (framed "AB")
  = insertText (host 3) frame_host
      (mkInsertTextOptions "0" "XY" None None) (framed "AB").
Proof.
  apply (insertText_ignores_unknown_style (host 3) frame_host
           (mkInsertTextOptions "0" "XY" None (Some "Title"%string))
           "Title" (framed "AB")).
  - reflexivity.
  - simpl. apply not_elem_of_nil.
Defined.

(** X17 on the sample flow: linking the last frame back to the first one,
    and an identifier that does not exist. *)
Lemma linkTextFrames_links_the_frames_found_witness :
  (exists d',
      linkTextFrames "3" "1" (final_document flowed)
      = Returns (mkLinkResult true "3" "1") d'
      /\ nextTextFrame <$> frames d' !! 3 = Some (Some 1))
  /\ linkTextFrames "3" "9" (final_document flowed)
     = Throws (final_document flowed).
Proof.
  split.
  - pose proof (linkTextFrames_links_the_frames_found "3" "1"
                  (final_document flowed)) as Hlink.
    vm_compute findFrame in Hlink.
    destruct Hlink as (d' & Hrun & Hframes & _).
    exists d'. split; [exact Hrun |]. rewrite Hframes.
    vm_compute. reflexivity.
  - pose proof (linkTextFrames_links_the_frames_found "3" "9"
                  (final_document flowed)) as Hlink.
    vm_compute findFrame in Hlink. exact Hlink.
Defined.

(** X18 on the sample flow: page 5 lists frame 2, which holds what its
    story holds and has both a successor and a predecessor. *)
Lemma getTextFrames_reports_the_chain_witness :
  flowed = Returns (mkSummary 6 2 3 4 6) (final_document flowed)
  /\ exists infos info,
       getTextFrames Z.sub (host 3) (Some 5) (final_document flowed)
       = Returns infos (final_document flowed)
       /\ info ∈ infos
       /\ fi_id info = "2"%string
       /\ fi_pageIndex info = 5
       /\ fi_hasNextFrame info = true
       /\ fi_hasPreviousFrame info = true.
Proof.
  assert (flowed = Returns (mkSummary 6 2 3 4 6) (final_document flowed))
    as Hrun by (vm_compute; reflexivity).
  split; [exact Hrun |].
  destruct (getTextFrames_reports_the_chain Z.add Z.sub (host 3) _ _ _ _ 1
              Hrun)
    as (infos & info & Hget & Hin & Hid & Hpage & _ & Hnext & Hprev).
  { vm_compute. lia. }
  exists infos, info.
  split; [exact Hget |]. split; [exact Hin |].
  split; [exact Hid |]. split; [exact Hpage |].
  split; [exact Hnext | apply Hprev; lia].
Defined.

(** X19 on "Hello" placed after "AB\r": the six new characters carry
    "Body Text", the three before them no style. *)
Lemma placed_paragraph_carries_its_style_witness :
  exists l' d',
    processBlock Z.add Z.sub (host 100) true normal_to_body
      (ParagraphBlock hello_paragraph) at_frame_0
      (framed ("AB" +:+ CR)%string)
    = Returns l' d'
    /\ map appliedParagraphStyle (story_of d' 0)
       = replicate 3 None ++ replicate 6 (Some "Body Text"%string).
Proof.
  set (o := processBlock Z.add Z.sub (host 100) true normal_to_body
              (ParagraphBlock hello_paragraph) at_frame_0
              (framed ("AB" +:+ CR)%string)).
  assert (o = Returns (returned at_frame_0 o) (final_document o)) as Hrun
    by (vm_compute; reflexivity).
  exists (returned at_frame_0 o), (final_document o).
  split; [exact Hrun |].
  etransitivity;
    [apply (placed_paragraph_carries_its_style Z.add Z.sub (host 100) true
              normal_to_body hello_paragraph "Normal" at_frame_0
              (framed ("AB" +:+ CR)%string)
              (returned at_frame_0 o) (final_document o))
    | vm_compute; reflexivity].
  - reflexivity.
  - vm_compute. lia.
  - right. exists (plain "013"%char). split; reflexivity.
  - vm_compute. repeat (constructor; [discriminate |]). constructor.
  - reflexivity.
  - exact Hrun.
Defined.
